(** * conntracct: the accounting event pipeline, embedded in Rocq

    A shallow embedding of the Go sources of the conntracct event pipeline
    ([pkg/bpf/acct_consumer.go], [pkg/bpf/errors.go],
    [internal/pipeline/pipeline.go] and its companion file holding
    [Init], [Start] and the two workers, [internal/sinks/influxdb/influxdb.go])
    together with the properties its specification states about them.

    Conventions of the embedding:
    - a Go [uintN] is a [Z] (or an [N]) and every wrapping operation is
      written out with [mod];
    - a Go pointer that may be [nil] is an [option]; dereferencing [nil]
      is the outcome [Panic];
    - a Go slice is its backing array together with its length, so that
      what the code leaves behind in the spare capacity can be stated;
    - a method that mutates its receiver returns the new receiver;
    - mutexes are not modelled: each locked region is one atomic function. *)

From Stdlib Require Import ZArith NArith Lia List String Bool.
From stdpp Require Import gmap strings list fin_maps.

Local Open Scope Z_scope.

(** ** Outcomes of Go calls *)

(** A call either returns, faults with a run-time panic, or parks the
    calling goroutine on a channel operation that cannot proceed. *)
Inductive outcome (A : Type) : Type :=
| Ret (a : A)
| Panic
| Blocked.
Arguments Ret {A} a.
Arguments Panic {A}.
Arguments Blocked {A}.

#[global] Instance outcome_ret : MRet outcome := fun A a => Ret a.
#[global] Instance outcome_bind : MBind outcome := fun A B k m =>
  match m with
  | Ret a => k a
  | Panic => Panic
  | Blocked => Blocked
  end.

(** [uint64] arithmetic, as performed by [atomic.AddUint64]. *)
Definition u64 : Z := 2 ^ 64.
Definition add64 (x d : Z) : Z := (x + d) mod u64.
Definition mul64 (x y : Z) : Z := (x * y) mod u64.

(** ** Events

    [bpf.Event] is declared outside the files at hand; the record keeps the
    fields the sinks read (see [InfluxAcctSink.Push]). *)
Record Event : Type := mkEvent {
  Timestamp : Z;
  ConnectionID : Z;
  Connmark : Z;
  SrcAddr : Z;
  DstAddr : Z;
  SrcPort : Z;
  DstPort : Z;
  PacketsOrig : Z;
  BytesOrig : Z;
  PacketsRet : Z;
  BytesRet : Z;
  NetNS : Z;
  Proto : Z
}.

(** A buffered Go channel: the queued values, the capacity and the closed
    flag.  A [nil] channel is [None] at the place that holds it. *)
Record chan (A : Type) : Type := mkChan {
  buf : list A;
  cap : nat;
  closed : bool
}.
Arguments mkChan {A} buf cap closed.
Arguments buf {A} _.
Arguments cap {A} _.
Arguments closed {A} _.

Definition make_chan {A : Type} (n : nat) : chan A := mkChan [] n false.

(** ** Errors

    The error values of the three packages.  Those of package bpf are
    declared in [pkg/bpf/errors.go]; [errSinkNotInit],
    [errAcctNotInitialized] (package pipeline) and [errSinkName] (package
    influxdb) are only used, not declared, by the files at hand.  [Wrap] is
    [errors.Wrap], which never yields [nil] for a non-nil cause, and
    [errExternal] stands for the errors of collaborators (probe loading,
    the UDP client). *)
Inductive error : Type :=
| errNotInRange
| errProbeStarted
| errProbeNotStarted
| errDupConsumer
| errNoConsumer
| errConsumerNil
| errSinkNotInit
| errAcctNotInitialized
| errSinkName
| errExternal (msg : string)
| Wrap (cause : error) (msg : string).

(** ** Go slices *)

Module slice.

(** The backing array [arr] (its length is the capacity) and the length
    [len] of the visible part. *)
Record t (A : Type) : Type := mk { arr : list (option A); len : nat }.
Arguments mk {A} arr len.
Arguments arr {A} _.
Arguments len {A} _.

(** The zero value of a slice: [nil]. *)
Definition empty {A : Type} : t A := mk [] 0.

(** What a [range] loop walks over. *)
Definition visible {A : Type} (s : t A) : list (option A) :=
  take (len s) (arr s).

(** Capacity chosen by [append] when the backing array is full: the Go
    run-time doubles small arrays and grows large ones by a quarter
    (the rounding to allocator size classes is left out). *)
Definition growcap (old needed : nat) : nat :=
  if (old + old <? needed)%nat then needed
  else if (old <? 256)%nat then (old + old)%nat
  else Nat.max needed (old + (old + 768) / 4)%nat.

(** [append(s, x)]: in place when there is spare capacity, otherwise
    into a fresh, larger array. *)
Definition append {A : Type} (s : t A) (x : option A) : t A :=
  if (len s <? length (arr s))%nat
  then mk (<[len s := x]> (arr s)) (S (len s))
  else
    let c := growcap (length (arr s)) (S (len s)) in
    mk (visible s ++ x :: replicate (c - S (len s)) None) (S (len s)).

(** [s[i] = x], with the bounds check. *)
Definition set {A : Type} (s : t A) (i : nat) (x : option A) : outcome (t A) :=
  if (i <? len s)%nat then Ret (mk (<[i := x]> (arr s)) (len s)) else Panic.

(** [s[i]], with the bounds check. *)
Definition get {A : Type} (s : t A) (i : nat) : outcome (option A) :=
  if (i <? len s)%nat
  then match arr s !! i with Some x => Ret x | None => Panic end
  else Panic.

(** [s[:n]], with the bounds check against the capacity. *)
Definition prefix {A : Type} (s : t A) (n : nat) : outcome (t A) :=
  if (n <=? length (arr s))%nat then Ret (mk (arr s) n) else Panic.

(** The length never exceeds the capacity. *)
Definition wf {A : Type} (s : t A) : Prop := (len s <= length (arr s))%nat.

End slice.

(** ** Package bpf *)

Module bpf.

(** [type ConsumerMode uint8] *)
Definition ConsumerMode : Type := Z.

Definition ConsumerUpdate : ConsumerMode := 1.
Definition ConsumerDestroy : ConsumerMode := 2.
Definition ConsumerAll : ConsumerMode := Z.lor ConsumerUpdate ConsumerDestroy.

(** The [events] channel of a consumer is a reference: it is kept as the
    identifier of the channel it points to. *)
Record Consumer : Type := mkConsumer {
  name : string;
  events : nat;
  lost : Z;
  mode : ConsumerMode
}.

Definition NewConsumer (name : string) (events : nat) (mode : ConsumerMode)
  : Consumer :=
  let mode := if mode =? 0 then ConsumerAll else mode in
  {| name := name; events := events; lost := 0; mode := mode |}.

Definition WantUpdate (ac : Consumer) : bool :=
  Z.land (mode ac) ConsumerUpdate >? 0.

Definition WantDestroy (ac : Consumer) : bool :=
  Z.land (mode ac) ConsumerDestroy >? 0.

(** [bpf.Config]; only [CooldownMillis] is set by the pipeline. *)
Record Config : Type := mkConfig { CooldownMillis : Z }.

(** Modelled from the spec: the life cycle of a probe, "states: New →
    Initialized → Running → Stopped; terminal Stopped" (the file declaring
    [Probe] is not among the sources). *)
Inductive ProbeState : Type := New | Initialized | Running | Stopped.

(** The probe: its consumer list, as [acct_consumer.go] uses it, and its
    life-cycle state. *)
Record Probe : Type := mkProbe {
  consumers : slice.t Consumer;
  state : ProbeState
}.

Definition set_consumers (cs : slice.t Consumer) (ap : Probe) : Probe :=
  {| consumers := cs; state := state ap |}.

Definition set_state (st : ProbeState) (ap : Probe) : Probe :=
  {| consumers := consumers ap; state := st |}.

(** The loop shared by the three registry operations,
    [for i, c := range ap.consumers { if c.name == n { ... } }]:
    index and value of the first element named [n].  Reading the name
    through a nil element faults. *)
Fixpoint range_name (n : string) (i : nat) (cs : list (option Consumer))
  : outcome (option (nat * Consumer)) :=
  match cs with
  | [] => Ret None
  | None :: _ => Panic
  | Some c :: cs' =>
      if String.eqb (name c) n then Ret (Some (i, c))
      else range_name n (S i) cs'
  end.

Definition RegisterConsumer (ap : Probe) (ac : option Consumer)
  : outcome (option error * Probe) :=
  match ac with
  | None => Ret (Some errConsumerNil, ap)
  | Some c =>
      r ← range_name (name c) 0 (slice.visible (consumers ap));
      match r with
      | Some _ => Ret (Some errDupConsumer, ap)
      | None =>
          Ret (None, set_consumers (slice.append (consumers ap) (Some c)) ap)
      end
  end.

Definition RemoveConsumer (ap : Probe) (ac : option Consumer)
  : outcome (option error * Probe) :=
  match ac with
  | None => Ret (Some errConsumerNil, ap)
  | Some c =>
      r ← range_name (name c) 0 (slice.visible (consumers ap));
      match r with
      | Some (i, _) =>
          let cs := consumers ap in
          l ← slice.get cs (slice.len cs - 1);
          cs ← slice.set cs i l;
          cs ← slice.set cs (slice.len cs - 1) None;
          cs ← slice.prefix cs (slice.len cs - 1);
          Ret (None, set_consumers cs ap)
      | None => Ret (Some errNoConsumer, ap)
      end
  end.

Definition GetConsumer (ap : Probe) (n : string) : outcome (option Consumer) :=
  r ← range_name n 0 (slice.visible (consumers ap));
  match r with
  | Some (_, c) => Ret (Some c)
  | None => Ret None
  end.

(** Modelled from the spec: [Probe.Stop], whose body is not among the
    sources.  "Stop: fails with NotRunning otherwise; detaches probes,
    closes kernel resources, signals shutdown, waits for all tasks, then
    closes consumer channels exactly once", and called through a nil
    probe it "will fault": its first statement reads a field of the
    receiver. *)
Definition Stop (ap : option Probe) : outcome (option error * Probe) :=
  match ap with
  | None => Panic
  | Some ap =>
      match state ap with
      | Running => Ret (None, set_state Stopped ap)
      | _ => Ret (Some errProbeNotStarted, ap)
      end
  end.

(** The kind of an event: "Update or Destroy". *)
Inductive Kind : Type := Update | Destroy.

(** Modelled from the spec: the key of the cooldown table, which is not
    among the sources: "Key: (net_ns, connection_id)". *)
Definition flow_key (e : Event) : Z * Z := (NetNS e, ConnectionID e).

(** Modelled from the spec: the cooldown filter, which is not among the
    sources.  "On Update with key K at timestamp T: if last[K] exists and
    T − last[K] < cooldown_ms, drop; else deliver and set last[K] = T.  On
    Destroy with key K: always deliver; remove last[K]."  Timestamps and
    cooldown are compared as the rule writes them, in one unit.  The
    result says whether the event is delivered and gives the new table. *)
Definition cooldown (cooldown_ms : Z) (k : Kind) (e : Event)
  (last : gmap (Z * Z) Z) : bool * gmap (Z * Z) Z :=
  match k with
  | Update =>
      match last !! flow_key e with
      | Some t =>
          if Timestamp e - t <? cooldown_ms then (false, last)
          else (true, <[flow_key e := Timestamp e]> last)
      | None => (true, <[flow_key e := Timestamp e]> last)
      end
  | Destroy => (true, delete (flow_key e) last)
  end.

(** Modelled from the spec: the filter run over a stream of events; the
    delivered ones, in order, and the final table. *)
Fixpoint cooldown_run (cooldown_ms : Z) (evs : list (Kind * Event))
  (last : gmap (Z * Z) Z) : list (Kind * Event) * gmap (Z * Z) Z :=
  match evs with
  | [] => ([], last)
  | (k, e) :: evs' =>
      let '(deliver, last') := cooldown cooldown_ms k e last in
      let '(out, last'') := cooldown_run cooldown_ms evs' last' in
      (if deliver then (k, e) :: out else out, last'')
  end.

End bpf.

(** ** Channel operations *)

(** [x, ok := <-c]: a nil channel and an empty open channel park the
    receiver; an empty closed channel yields [ok = false]. *)
Definition recv {A : Type} (c : option (chan A)) : outcome (option A * chan A) :=
  match c with
  | None => Blocked
  | Some ch =>
      match buf ch with
      | [] => if closed ch then Ret (None, ch) else Blocked
      | a :: rest => Ret (Some a, mkChan rest (cap ch) (closed ch))
      end
  end.

(** [c <- x]: a nil channel and a full channel park the sender; sending on
    a closed channel panics. *)
Definition send {A : Type} (c : option (chan A)) (x : A) : outcome (chan A) :=
  match c with
  | None => Blocked
  | Some ch =>
      if closed ch then Panic
      else if (length (buf ch) <? cap ch)%nat
           then Ret (mkChan (buf ch ++ [x]) (cap ch) (closed ch))
           else Blocked
  end.

(** ** Package sinks *)

Module sinks.

(** Modelled from the spec: the [sinks.Sink] interface, whose declaration
    is not among the sources: "polymorphic over the capability set {Name,
    IsInit, WantUpdate, WantDestroy, Push(Event), Stats}".  [Push] mutates
    the sink, and by the sink contract it returns ("must not block longer
    than the time to copy the event into the sink's internal buffer"). *)
Class Sink (S : Type) : Type := {
  Name : S -> string;
  IsInit : S -> bool;
  WantUpdate : S -> bool;
  WantDestroy : S -> bool;
  Push : Event -> S -> S
}.

End sinks.

(** ** Package pipeline *)

Module pipeline.

Import sinks.

Record Stats : Type := mkStats {
  EventsTotal : Z;
  AcctBytesTotal : Z;
  EventsUpdate : Z;
  AcctBytesUpdate : Z;
  EventsDestroy : Z;
  AcctBytesDestroy : Z;
  AcctUpdateQueueLen : Z;
  AcctDestroyQueueLen : Z
}.

(** The atomic operations the workers perform on the [Stats] block. *)
Inductive stat_op : Type :=
| AddEventsTotal
| AddAcctBytesTotal
| AddEventsUpdate
| AddAcctBytesUpdate
| AddEventsDestroy
| AddAcctBytesDestroy
| StoreAcctUpdateQueueLen (n : Z)
| StoreAcctDestroyQueueLen (n : Z).

(** What a call leaves behind outside the [Pipeline] struct: goroutines
    launched, calls into the probe, the sysctl warning, and the [Push]
    calls made on the sink at a given position of the sink list. *)
Inductive effect : Type :=
| GoUpdateWorker
| GoDestroyWorker
| ProbeStartCall
| WarnSysctl
| PushCall (i : nat) (ae : Event).

(** Identifiers of the two event channels, as the consumers refer to them. *)
Definition acctUpdateChanId : nat := 0.
Definition acctDestroyChanId : nat := 1.

Section Pipeline.

Context {S : Type} `{!Sink S}.

(** Collaborators declared outside the files at hand: the probe
    constructor, [Probe.Start] and the constant [bpf.EventLength]. *)
Variable NewProbe : bpf.Config -> error + bpf.Probe.
Variable ProbeStart : bpf.Probe -> option error * bpf.Probe.
Variable EventLength : Z.

(** The [Pipeline] struct.  [init] and [start] are the two [sync.Once]
    gates (true once consumed); [effects] is the record of what the calls
    did outside the struct, most recent last.  [acctSinks] holds the
    sinks themselves, one per entry: this is the state of the slice of
    sink references as long as no sink is registered twice; of a sink
    registered twice the model keeps two copies. *)
Record Pipeline : Type := mkPipeline {
  stats : Stats;
  init : bool;
  start : bool;
  acctProbe : option bpf.Probe;
  acctUpdateChan : option (chan Event);
  acctDestroyChan : option (chan Event);
  acctSinks : list S;
  effects : list effect
}.

Definition set_stats (x : Stats) (p : Pipeline) : Pipeline :=
  mkPipeline x (init p) (start p) (acctProbe p) (acctUpdateChan p)
    (acctDestroyChan p) (acctSinks p) (effects p).
Definition set_init (x : bool) (p : Pipeline) : Pipeline :=
  mkPipeline (stats p) x (start p) (acctProbe p) (acctUpdateChan p)
    (acctDestroyChan p) (acctSinks p) (effects p).
Definition set_start (x : bool) (p : Pipeline) : Pipeline :=
  mkPipeline (stats p) (init p) x (acctProbe p) (acctUpdateChan p)
    (acctDestroyChan p) (acctSinks p) (effects p).
Definition set_acctProbe (x : option bpf.Probe) (p : Pipeline) : Pipeline :=
  mkPipeline (stats p) (init p) (start p) x (acctUpdateChan p)
    (acctDestroyChan p) (acctSinks p) (effects p).
Definition set_acctUpdateChan (x : option (chan Event)) (p : Pipeline) : Pipeline :=
  mkPipeline (stats p) (init p) (start p) (acctProbe p) x
    (acctDestroyChan p) (acctSinks p) (effects p).
Definition set_acctDestroyChan (x : option (chan Event)) (p : Pipeline) : Pipeline :=
  mkPipeline (stats p) (init p) (start p) (acctProbe p) (acctUpdateChan p)
    x (acctSinks p) (effects p).
Definition set_acctSinks (x : list S) (p : Pipeline) : Pipeline :=
  mkPipeline (stats p) (init p) (start p) (acctProbe p) (acctUpdateChan p)
    (acctDestroyChan p) x (effects p).
Definition emit (es : list effect) (p : Pipeline) : Pipeline :=
  mkPipeline (stats p) (init p) (start p) (acctProbe p) (acctUpdateChan p)
    (acctDestroyChan p) (acctSinks p) (effects p ++ es).

Definition zeroStats : Stats := mkStats 0 0 0 0 0 0 0 0.

(** [New]: the zero value of the struct. *)
Definition New : Pipeline :=
  mkPipeline zeroStats false false None None None [] [].

Definition RegisterSink (p : Pipeline) (s : S) : option error * Pipeline :=
  if negb (IsInit s) then (Some errSinkNotInit, p)
  else
    let p := if WantDestroy s then emit [WarnSysctl] p else p in
    (None, set_acctSinks (acctSinks p ++ [s]) p).

Definition GetSinks (p : Pipeline) : list S := acctSinks p.

Definition Stop (p : Pipeline) : outcome (option error * Pipeline) :=
  '(err, ap) ← bpf.Stop (acctProbe p);
  Ret (err, set_acctProbe (Some ap) p).

(** The probe configuration [initAcct] builds. *)
Definition acctConfig : bpf.Config := bpf.mkConfig 2000.

Definition initAcct (p : Pipeline) : outcome (option error * Pipeline) :=
  let cfg := acctConfig in
  match NewProbe cfg with
  | inl err => Ret (Some (Wrap err "initializing BPF probe"), p)
  | inr ap =>
      let p := set_acctUpdateChan (Some (make_chan 1024)) p in
      let p := set_acctDestroyChan (Some (make_chan 1024)) p in
      let au := bpf.NewConsumer "AcctUpdate" acctUpdateChanId bpf.ConsumerUpdate in
      '(err, ap) ← bpf.RegisterConsumer ap (Some au);
      match err with
      | Some err =>
          Ret (Some (Wrap err "registering update consumer to probe"), p)
      | None =>
          let ad :=
            bpf.NewConsumer "AcctDestroy" acctDestroyChanId bpf.ConsumerDestroy in
          '(err, ap) ← bpf.RegisterConsumer ap (Some ad);
          match err with
          | Some err =>
              Ret (Some (Wrap err "registering destroy consumer to probe"), p)
          | None => Ret (None, set_acctProbe (Some ap) p)
          end
      end
  end.

(** [Init]: [p.init.Do] runs [initAcct] at most once; a later call leaves
    the local [err] at nil. *)
Definition Init (p : Pipeline) : outcome (option error * Pipeline) :=
  if init p then Ret (None, p)
  else
    '(err, p) ← initAcct p;
    Ret (err, set_init true p).

Definition startAcct (p : Pipeline) (ap : bpf.Probe) : option error * Pipeline :=
  let p := emit [GoUpdateWorker; GoDestroyWorker] p in
  let p := emit [ProbeStartCall] p in
  let '(err, ap) := ProbeStart ap in
  let p := set_acctProbe (Some ap) p in
  match err with
  | Some err => (Some (Wrap err "starting Probe"), p)
  | None => (None, p)
  end.

(** [Start]: the nil check, then [p.start.Do]. *)
Definition Start (p : Pipeline) : option error * Pipeline :=
  match acctProbe p with
  | None => (Some errAcctNotInitialized, p)
  | Some ap =>
      if start p then (None, p)
      else
        let '(err, p) := startAcct p ap in
        (err, set_start true p)
  end.

Definition exec_op (op : stat_op) (s : Stats) : Stats :=
  match op with
  | AddEventsTotal =>
      mkStats (add64 (EventsTotal s) 1) (AcctBytesTotal s) (EventsUpdate s)
        (AcctBytesUpdate s) (EventsDestroy s) (AcctBytesDestroy s)
        (AcctUpdateQueueLen s) (AcctDestroyQueueLen s)
  | AddAcctBytesTotal =>
      mkStats (EventsTotal s) (add64 (AcctBytesTotal s) EventLength)
        (EventsUpdate s) (AcctBytesUpdate s) (EventsDestroy s)
        (AcctBytesDestroy s) (AcctUpdateQueueLen s) (AcctDestroyQueueLen s)
  | AddEventsUpdate =>
      mkStats (EventsTotal s) (AcctBytesTotal s) (add64 (EventsUpdate s) 1)
        (AcctBytesUpdate s) (EventsDestroy s) (AcctBytesDestroy s)
        (AcctUpdateQueueLen s) (AcctDestroyQueueLen s)
  | AddAcctBytesUpdate =>
      mkStats (EventsTotal s) (AcctBytesTotal s) (EventsUpdate s)
        (add64 (AcctBytesUpdate s) EventLength) (EventsDestroy s)
        (AcctBytesDestroy s) (AcctUpdateQueueLen s) (AcctDestroyQueueLen s)
  | AddEventsDestroy =>
      mkStats (EventsTotal s) (AcctBytesTotal s) (EventsUpdate s)
        (AcctBytesUpdate s) (add64 (EventsDestroy s) 1) (AcctBytesDestroy s)
        (AcctUpdateQueueLen s) (AcctDestroyQueueLen s)
  | AddAcctBytesDestroy =>
      mkStats (EventsTotal s) (AcctBytesTotal s) (EventsUpdate s)
        (AcctBytesUpdate s) (EventsDestroy s)
        (add64 (AcctBytesDestroy s) EventLength)
        (AcctUpdateQueueLen s) (AcctDestroyQueueLen s)
  | StoreAcctUpdateQueueLen n =>
      mkStats (EventsTotal s) (AcctBytesTotal s) (EventsUpdate s)
        (AcctBytesUpdate s) (EventsDestroy s) (AcctBytesDestroy s)
        n (AcctDestroyQueueLen s)
  | StoreAcctDestroyQueueLen n =>
      mkStats (EventsTotal s) (AcctBytesTotal s) (EventsUpdate s)
        (AcctBytesUpdate s) (EventsDestroy s) (AcctBytesDestroy s)
        (AcctUpdateQueueLen s) n
  end.

Fixpoint exec_ops (ops : list stat_op) (s : Stats) : Stats :=
  match ops with
  | [] => s
  | op :: ops' => exec_ops ops' (exec_op op s)
  end.

(** "Record pipeline statistics" of [acctUpdateWorker], in program order;
    [qlen] is what [len(p.acctUpdateChan)] reads. *)
Definition update_stat_ops (qlen : Z) : list stat_op :=
  [AddEventsTotal; AddAcctBytesTotal; AddEventsUpdate; AddAcctBytesUpdate;
   StoreAcctUpdateQueueLen qlen].

(** The same block of [acctDestroyWorker]. *)
Definition destroy_stat_ops (qlen : Z) : list stat_op :=
  [AddEventsTotal; AddAcctBytesTotal; AddEventsDestroy; AddAcctBytesDestroy;
   StoreAcctDestroyQueueLen qlen].

(** "Fan out to all registered accounting sinks": the [range] loop over
    the sink list, from position [i] on.  Returns the sinks after the
    loop and the positions at which [Push] was called, in call order. *)
Fixpoint fanout (want : S -> bool) (ae : Event) (i : nat) (ss : list S)
  : list S * list nat :=
  match ss with
  | [] => ([], [])
  | s :: ss' =>
      let '(ss'', calls) := fanout want ae (Datatypes.S i) ss' in
      if want s then (Push ae s :: ss'', i :: calls) else (s :: ss'', calls)
  end.

(** One iteration of the loop of [acctUpdateWorker].  The boolean tells
    whether the loop goes on ([false]: the channel is closed, [break]). *)
Definition acctUpdateWorker_iter (p : Pipeline) : outcome (bool * Pipeline) :=
  '(r, ch) ← recv (acctUpdateChan p);
  match r with
  | None => Ret (false, p)
  | Some ae =>
      let p := set_acctUpdateChan (Some ch) p in
      let p :=
        set_stats
          (exec_ops (update_stat_ops (Z.of_nat (length (buf ch)))) (stats p)) p in
      let '(ss, calls) := fanout WantUpdate ae 0 (acctSinks p) in
      Ret (true, emit (map (fun i => PushCall i ae) calls) (set_acctSinks ss p))
  end.

(** One iteration of the loop of [acctDestroyWorker]. *)
Definition acctDestroyWorker_iter (p : Pipeline) : outcome (bool * Pipeline) :=
  '(r, ch) ← recv (acctDestroyChan p);
  match r with
  | None => Ret (false, p)
  | Some ae =>
      let p := set_acctDestroyChan (Some ch) p in
      let p :=
        set_stats
          (exec_ops (destroy_stat_ops (Z.of_nat (length (buf ch)))) (stats p)) p in
      let '(ss, calls) := fanout WantDestroy ae 0 (acctSinks p) in
      Ret (true, emit (map (fun i => PushCall i ae) calls) (set_acctSinks ss p))
  end.

(** How a worker goroutine stands after some iterations: it left its loop
    on a closed channel, it is parked on its channel, it faulted, or it
    was still running when the iterations allotted were used up. *)
Inductive worker_end : Type := Exited | Parked | Faulted | Unfinished.

(** The [for] loop of a worker, run for at most [fuel] iterations. *)
Fixpoint worker_loop (iter : Pipeline -> outcome (bool * Pipeline))
  (fuel : nat) (p : Pipeline) : worker_end * Pipeline :=
  match fuel with
  | O => (Unfinished, p)
  | Datatypes.S fuel' =>
      match iter p with
      | Ret (true, p') => worker_loop iter fuel' p'
      | Ret (false, p') => (Exited, p')
      | Blocked => (Parked, p)
      | Panic => (Faulted, p)
      end
  end.

Definition acctUpdateWorker (fuel : nat) (p : Pipeline) : worker_end * Pipeline :=
  worker_loop acctUpdateWorker_iter fuel p.

Definition acctDestroyWorker (fuel : nat) (p : Pipeline) : worker_end * Pipeline :=
  worker_loop acctDestroyWorker_iter fuel p.

(** Stat conservation, in the [uint64] arithmetic of the counters. *)
Definition stat_conservation (s : Stats) : Prop :=
  EventsTotal s = add64 (EventsUpdate s) (EventsDestroy s) /\
  AcctBytesTotal s = mul64 (EventsTotal s) EventLength.

End Pipeline.

(** The merges of two sequences that keep the order of each: the
    schedules of two goroutines. *)
Inductive interleave {A : Type} : list A -> list A -> list A -> Prop :=
| interleave_nil : interleave [] [] []
| interleave_l x l r m : interleave l r m -> interleave (x :: l) r (x :: m)
| interleave_r x l r m : interleave l r m -> interleave l (x :: r) (x :: m).

End pipeline.

(** ** Package influxdb *)

Module influxdb.

Definition defaultBatchWatermark : N := 128.

(** Capacity of the channel the send workers receive batches on. *)
Definition sendChanCap : nat := 64.

(** Modelled from the spec: [sinks.AcctSinkConfig], of which the sink
    reads the fields below; the watermark and the payload size are
    unsigned ("batch_watermark (default 128)"). *)
Record AcctSinkConfig : Type := mkConfig {
  Name : string;
  Addr : string;
  BatchWatermark : N;
  UDPPayloadSize : N;
  EnableSrcPort : bool
}.

(** The two statistics [Push] records (of [sinks.AcctSinkStats]). *)
Record AcctSinkStats : Type := mkStats {
  BatchLength : Z;
  EventsPushed : Z
}.

(** [int64(x)] of a [uint64]. *)
Definition int64 (x : Z) : Z := (x + 2 ^ 63) mod 2 ^ 64 - 2 ^ 63.

(** An InfluxDB point.  Tag values are kept as the numbers the code
    formats them from. *)
Record Point : Type := mkPoint {
  measurement : string;
  tags : gmap string Z;
  fields : gmap string Z;
  time : Z
}.

Definition Batch : Type := list Point.

(** What [Init] launches. *)
Inductive worker : Type := sendWorker | tickWorker.

(** The handle of the UDP client: the address and payload size it was
    made for. *)
Record Client : Type := mkClient {
  clientAddr : string;
  clientPayloadSize : N
}.

Record InfluxAcctSink : Type := mkSink {
  name : string;
  init : bool;
  config : AcctSinkConfig;
  bootTime : Z;
  client : option Client;
  sendChan : option (chan Batch);
  batch : option Batch;
  stats : AcctSinkStats;
  workers : list worker
}.

(** [New]: the zero value of the struct. *)
Definition New : InfluxAcctSink :=
  mkSink EmptyString false (mkConfig EmptyString EmptyString 0 0 false) 0
    None None None (mkStats 0 0) [].

Definition set_batch (b : option Batch) (s : InfluxAcctSink) : InfluxAcctSink :=
  mkSink (name s) (init s) (config s) (bootTime s) (client s) (sendChan s) b
    (stats s) (workers s).
Definition set_sendChan (c : option (chan Batch)) (s : InfluxAcctSink)
  : InfluxAcctSink :=
  mkSink (name s) (init s) (config s) (bootTime s) (client s) c (batch s)
    (stats s) (workers s).
Definition set_stats (x : AcctSinkStats) (s : InfluxAcctSink) : InfluxAcctSink :=
  mkSink (name s) (init s) (config s) (bootTime s) (client s) (sendChan s)
    (batch s) x (workers s).

(** Modelled from the spec: [newBatch], whose body is not among the
    sources: "a fresh batch installed" ("initial empty batch" at its call
    in [Init]). *)
Definition newBatch (s : InfluxAcctSink) : InfluxAcctSink := set_batch (Some []) s.

Section Init.

(** Collaborators: the UDP client constructor and the boot time estimate. *)
Variable NewUDPClient : string -> N -> error + Client.
Variable Estimate : Z.

Definition Init (s : InfluxAcctSink) (sc : AcctSinkConfig)
  : option error * InfluxAcctSink :=
  if String.eqb (Name sc) EmptyString then (Some errSinkName, s)
  else
    match NewUDPClient (Addr sc) (UDPPayloadSize sc) with
    | inl err => (Some err, s)
    | inr c =>
        let sc :=
          if (BatchWatermark sc =? 0)%N
          then mkConfig (Name sc) (Addr sc) defaultBatchWatermark
                 (UDPPayloadSize sc) (EnableSrcPort sc)
          else sc in
        let s := mkSink (name s) (init s) (config s) Estimate (client s)
                   (Some (make_chan sendChanCap)) (batch s) (stats s)
                   (workers s) in
        let s := newBatch s in
        (None,
         mkSink (Name sc) true sc (bootTime s) (Some c) (sendChan s) (batch s)
           (stats s) (workers s ++ [sendWorker; tickWorker]))
    end.

End Init.

(** The arguments [Push] hands to [influx.NewPoint]: the tags, with the
    source port only when the configuration enables it; the four
    counters, each converted with [int64]; and the time, the boot time
    plus [time.Duration(e.Timestamp)], a conversion of the [uint64]
    timestamp to [int64]. *)
Definition point_tags (s : InfluxAcctSink) (e : Event) : gmap string Z :=
  let tags : gmap string Z :=
    <["netns" := NetNS e]> (<["connmark" := Connmark e]> (<["proto" := Proto e]>
    (<["dst_port" := DstPort e]> (<["dst_addr" := DstAddr e]>
    (<["src_addr" := SrcAddr e]> (<["conn_id" := ConnectionID e]> ∅)))))) in
  if EnableSrcPort (config s) then <["src_port" := SrcPort e]> tags else tags.

Definition point_fields (e : Event) : gmap string Z :=
  <["packets_ret" := int64 (PacketsRet e)]>
  (<["packets_orig" := int64 (PacketsOrig e)]>
  (<["bytes_ret" := int64 (BytesRet e)]>
  (<["bytes_orig" := int64 (BytesOrig e)]> ∅))).

Definition point_time (s : InfluxAcctSink) (e : Event) : Z :=
  bootTime s + int64 (Timestamp e).

Section Push.

(** Collaborator: [influx.NewPoint], of the InfluxDB client library, which
    builds the point or returns an error. *)
Variable NewPoint :
  string -> gmap string Z -> gmap string Z -> Z -> error + Point.

(** The call [influx.NewPoint("ct_acct", tags, fields, ts)] of [Push]. *)
Definition new_point (s : InfluxAcctSink) (e : Event) : error + Point :=
  NewPoint "ct_acct" (point_tags s e) (point_fields e) (point_time s e).

(** [Push].  An error of [influx.NewPoint] is turned into a panic;
    [s.batch.AddPoint] on the nil batch of a sink that was never
    initialized faults; the hand-over [s.sendChan <- s.batch] parks the
    caller, mutex held, while the channel is full. *)
Definition Push (s : InfluxAcctSink) (e : Event) : outcome InfluxAcctSink :=
  match new_point s e with
  | inl err => Panic
  | inr pt =>
      match batch s with
      | None => Panic
      | Some b =>
          let s := set_batch (Some (b ++ [pt])) s in
          let batchLen := length (b ++ [pt]) in
          let s :=
            set_stats
              (mkStats (Z.of_nat batchLen) (add64 (EventsPushed (stats s)) 1)) s in
          if (BatchWatermark (config s) <=? N.of_nat batchLen)%N
          then
            ch ← send (sendChan s) (b ++ [pt]);
            Ret (newBatch (set_sendChan (Some ch) s))
          else Ret s
      end
  end.

End Push.

Definition IsInit (s : InfluxAcctSink) : bool := init s.
Definition WantUpdate (s : InfluxAcctSink) : bool := true.
Definition WantDestroy (s : InfluxAcctSink) : bool := true.

(** Modelled from the spec: one round of the tick worker, whose body is
    not among the sources: "A ticker flushes a non-empty batch regardless
    of size." *)
Definition tick (s : InfluxAcctSink) : outcome InfluxAcctSink :=
  match batch s with
  | None | Some [] => Ret s
  | Some b =>
      ch ← send (sendChan s) b;
      Ret (newBatch (set_sendChan (Some ch) s))
  end.

(** Modelled from the spec: one round of the send worker, whose body is
    not among the sources: "A send-worker task drains the send channel and
    transmits each batch."  Returns the batch taken off the channel. *)
Definition sendWorker_recv (s : InfluxAcctSink)
  : outcome (option Batch * InfluxAcctSink) :=
  '(b, ch) ← recv (sendChan s);
  Ret (b, set_sendChan (Some ch) s).

(** The length of the current batch (0 for the nil batch). *)
Definition batch_len (s : InfluxAcctSink) : N :=
  match batch s with
  | Some b => N.of_nat (length b)
  | None => 0%N
  end.

End influxdb.

(** * Specification predicates *)

(** The consumers a probe has registered: the visible part of its consumer
    slice, nil entries left out. *)
Definition registry (ap : bpf.Probe) : list bpf.Consumer :=
  omap id (slice.visible (bpf.consumers ap)).

(** The states of the consumer list the registry operations maintain: the
    length is within the capacity, no visible entry is nil, and no two
    registered consumers share a name. *)
Definition valid_registry (ap : bpf.Probe) : Prop :=
  slice.wf (bpf.consumers ap) /\
  slice.visible (bpf.consumers ap) = Some <$> registry ap /\
  NoDup (bpf.name <$> registry ap).

(** A freshly constructed probe: no consumers. *)
Definition empty_probe : bpf.Probe := bpf.mkProbe slice.empty bpf.Initialized.

(** A probe with three consumers in a backing array of capacity four. *)
Definition probe3 : bpf.Probe :=
  bpf.mkProbe
    (slice.mk [Some (bpf.NewConsumer "a" 0 1); Some (bpf.NewConsumer "b" 1 2);
               Some (bpf.NewConsumer "c" 2 0); None] 3)
    bpf.Running.

(** A test collector, one of the sink variants: it keeps the events it
    was pushed, in order. *)
Record collector : Type := mkCollector {
  c_name : string;
  c_init : bool;
  c_update : bool;
  c_destroy : bool;
  c_received : list Event
}.

#[global] Instance collector_sink : sinks.Sink collector := {|
  sinks.Name := c_name;
  sinks.IsInit := c_init;
  sinks.WantUpdate := c_update;
  sinks.WantDestroy := c_destroy;
  sinks.Push := fun ae c =>
    mkCollector (c_name c) (c_init c) (c_update c) (c_destroy c)
      (c_received c ++ [ae])
|}.

(** An event of flow [(ns, cid)] at time [t]. *)
Definition event_at (ns cid t : Z) : Event :=
  mkEvent t cid 0 0 0 0 0 0 0 0 0 ns 6.

(** A probe constructor and a [Probe.Start] that fail, and ones that
    succeed. *)
Definition NewProbe_fail (cfg : bpf.Config) : error + bpf.Probe :=
  inl (errExternal "loading probe").
Definition NewProbe_ok (cfg : bpf.Config) : error + bpf.Probe :=
  inr empty_probe.
Definition ProbeStart_fail (ap : bpf.Probe) : option error * bpf.Probe :=
  (Some (errExternal "opening perf map"), ap).
Definition ProbeStart_ok (ap : bpf.Probe) : option error * bpf.Probe :=
  match bpf.state ap with
  | bpf.Running => (Some errProbeStarted, ap)
  | _ => (None, bpf.set_state bpf.Running ap)
  end.

(** The pipeline [Init] yields from [New] when the probe loads. *)
Definition initialized_pipeline : pipeline.Pipeline (S := collector) :=
  match pipeline.Init NewProbe_ok pipeline.New with
  | Ret (_, p) => p
  | _ => pipeline.New
  end.

(** The six counters of a [Stats] block, the two gauges left out. *)
Definition counters (s : pipeline.Stats)
  : Z * Z * Z * Z * Z * Z :=
  (pipeline.EventsTotal s, pipeline.AcctBytesTotal s, pipeline.EventsUpdate s,
   pipeline.AcctBytesUpdate s, pipeline.EventsDestroy s,
   pipeline.AcctBytesDestroy s).

(** Scenario S3: sink A wants updates only, sink B wants both; one event
    waits on each channel. *)
Definition sink_A : collector := mkCollector "A" true true false [].
Definition sink_B : collector := mkCollector "B" true true true [].

Definition pipeline_S3 : pipeline.Pipeline (S := collector) :=
  pipeline.mkPipeline pipeline.zeroStats true true (Some empty_probe)
    (Some (mkChan [event_at 1 7 0] 1024 false))
    (Some (mkChan [event_at 1 7 10] 1024 false))
    [sink_A; sink_B] [].

(** A UDP client constructor that succeeds. *)
Definition NewUDPClient_ok (addr : string) (size : N) : error + influxdb.Client :=
  inr (influxdb.mkClient addr size).

(** The sink [Init] yields for a configuration (the zero sink when
    [Init] fails). *)
Definition sink_of (sc : influxdb.AcctSinkConfig) : influxdb.InfluxAcctSink :=
  snd (influxdb.Init NewUDPClient_ok 0 influxdb.New sc).

(** A configuration that leaves the watermark at 0, and one that sets 3. *)
Definition config_default : influxdb.AcctSinkConfig :=
  influxdb.mkConfig "influx" "localhost:8089" 0 512 false.
Definition config_wm3 : influxdb.AcctSinkConfig :=
  influxdb.mkConfig "influx" "localhost:8089" 3 512 false.

(** A client that builds the point when it has a field and its time, in
    nanoseconds since the epoch, lies in the range the InfluxDB client
    supports, from [MinInt64 + 2] to [MaxInt64 - 1], and otherwise returns
    an error. *)
Definition MinNanoTime : Z := - 2 ^ 63 + 2.
Definition MaxNanoTime : Z := 2 ^ 63 - 2.

Definition NewPoint_client (name : string) (tags fields : gmap string Z) (t : Z)
  : error + influxdb.Point :=
  if bool_decide (fields = ∅) then inl (errExternal "point without fields")
  else if (t <? MinNanoTime) || (MaxNanoTime <? t)
       then inl (errExternal "time outside range supported")
       else inr (influxdb.mkPoint name tags fields t).

(** A sequence of calls to [Push]. *)
Fixpoint Push_all
  (NewPoint : string -> gmap string Z -> gmap string Z -> Z -> error + influxdb.Point)
  (s : influxdb.InfluxAcctSink) (es : list Event)
  : outcome influxdb.InfluxAcctSink :=
  match es with
  | [] => Ret s
  | e :: es' => s' ← influxdb.Push NewPoint s e; Push_all NewPoint s' es'
  end.

(** An event of flow (1, 7) whose timestamp is the largest [int64]. *)
Definition event_late : Event := event_at 1 7 (2 ^ 63 - 1).

(** The lengths of the batches waiting on the send channel. *)
Definition queued_lengths (s : influxdb.InfluxAcctSink) : list nat :=
  match influxdb.sendChan s with
  | Some q => map (fun b : influxdb.Batch => length b) (buf q)
  | None => []
  end.

(** The states of an initialized InfluxDB sink: the batch exists and is
    shorter than the watermark, and the send channel exists, is open, has
    capacity 64 and holds no more than that. *)
Definition sink_inv (s : influxdb.InfluxAcctSink) : Prop :=
  influxdb.init s = true /\
  (exists b, influxdb.batch s = Some b /\
             (N.of_nat (length b) < influxdb.BatchWatermark (influxdb.config s))%N) /\
  (exists q, influxdb.sendChan s = Some q /\ closed q = false /\
             cap q = influxdb.sendChanCap /\ (length (buf q) <= cap q)%nat).

(** A call on the consumer registry, and a sequence of such calls run in
    order, with the error each call returned. *)
Inductive registry_call : Type :=
| CallRegister (ac : option bpf.Consumer)
| CallRemove (ac : option bpf.Consumer).

Definition run_call (ap : bpf.Probe) (k : registry_call)
  : outcome (option error * bpf.Probe) :=
  match k with
  | CallRegister ac => bpf.RegisterConsumer ap ac
  | CallRemove ac => bpf.RemoveConsumer ap ac
  end.

Fixpoint run_calls (ap : bpf.Probe) (ks : list registry_call)
  : outcome (list (option error) * bpf.Probe) :=
  match ks with
  | [] => Ret ([], ap)
  | k :: ks' =>
      match run_call ap k with
      | Ret (err, ap') =>
          match run_calls ap' ks' with
          | Ret (errs, ap'') => Ret (err :: errs, ap'')
          | Panic => Panic
          | Blocked => Blocked
          end
      | Panic => Panic
      | Blocked => Blocked
      end
  end.

(** What a sink has become after a worker offered it the events [evs]
    in order, its filter [want] asked before each. *)
Definition deliver {S : Type} `{!sinks.Sink S} (want : S -> bool)
  (evs : list Event) (s : S) : S :=
  fold_left (fun s e => if want s then sinks.Push e s else s) evs s.

(** The per-kind byte counters agree with the per-kind event counters, and
    the byte total is their sum, in [uint64] arithmetic. *)
Definition kind_conservation (EventLength : Z) (s : pipeline.Stats) : Prop :=
  pipeline.AcctBytesUpdate s = mul64 (pipeline.EventsUpdate s) EventLength /\
  pipeline.AcctBytesDestroy s = mul64 (pipeline.EventsDestroy s) EventLength /\
  pipeline.AcctBytesTotal s
    = add64 (pipeline.AcctBytesUpdate s) (pipeline.AcctBytesDestroy s).

(** A sequence of calls to [RegisterSink], errors dropped. *)
Definition RegisterSinks {S : Type} `{!sinks.Sink S}
  (p : pipeline.Pipeline (S := S)) (ss : list S) : pipeline.Pipeline (S := S) :=
  fold_left (fun p s => snd (pipeline.RegisterSink p s)) ss p.

(** The batches waiting on the send channel of a sink, its current batch,
    and all points the sink holds, oldest first. *)
Definition queued (s : influxdb.InfluxAcctSink) : list influxdb.Batch :=
  match influxdb.sendChan s with
  | Some q => buf q
  | None => []
  end.

Definition current (s : influxdb.InfluxAcctSink) : influxdb.Batch :=
  match influxdb.batch s with
  | Some b => b
  | None => []
  end.

Definition pending (s : influxdb.InfluxAcctSink) : list influxdb.Point :=
  concat (queued s) ++ current s.

(** * Properties *)

(** ** Consumer modes *)

Lemma land_bit0 (m : Z) : (Z.land m 1 >? 0) = Z.testbit m 0.
Proof.
  change 1 with (Z.ones 1). rewrite Z.land_ones by lia.
  change (2 ^ 1) with 2. rewrite <- Z.bit0_mod.
  destruct (Z.testbit m 0); reflexivity.
Qed.

Lemma land_bit1 (m : Z) : (Z.land m 2 >? 0) = Z.testbit m 1.
Proof.
  assert (Z.land m 2 = if Z.testbit m 1 then 2 else 0) as ->.
  { apply Z.bits_inj'. intros n Hn. rewrite Z.land_spec.
    change 2 with (2 ^ 1) at 1. rewrite Z.pow2_bits_eqb by lia.
    destruct (Z.eqb_spec 1 n) as [<- | Hne].
    - destruct (Z.testbit m 1); reflexivity.
    - rewrite andb_false_r. destruct (Z.testbit m 1).
      + change 2 with (2 ^ 1). rewrite Z.pow2_bits_eqb by lia.
        symmetry. apply Z.eqb_neq. exact Hne.
      + rewrite Z.bits_0. reflexivity. }
  destruct (Z.testbit m 1); reflexivity.
Qed.

(** C9. A consumer built by [NewConsumer] with mode 0 wants both updates
    and destroys; built with a nonzero mode, it wants updates exactly when
    bit 0 (Update) of the mode is set and destroys exactly when bit 1
    (Destroy) is set. *)
Theorem NewConsumer_mode_zero_means_all (n : string) (ch : nat) (m : bpf.ConsumerMode) :
  bpf.WantUpdate (bpf.NewConsumer n ch 0) = true /\
  bpf.WantDestroy (bpf.NewConsumer n ch 0) = true /\
  (m <> 0 ->
   (bpf.WantUpdate (bpf.NewConsumer n ch m) = true <-> Z.testbit m 0 = true) /\
   (bpf.WantDestroy (bpf.NewConsumer n ch m) = true <-> Z.testbit m 1 = true)).
Proof.
  split; [reflexivity | split; [reflexivity |]].
  intros Hm. unfold bpf.WantUpdate, bpf.WantDestroy, bpf.NewConsumer. cbn [bpf.mode].
  destruct (Z.eqb_spec m 0) as [? | _]; [contradiction |].
  unfold bpf.ConsumerUpdate, bpf.ConsumerDestroy.
  rewrite land_bit0, land_bit1. tauto.
Qed.

Lemma NewConsumer_mode_zero_means_all_witness :
  bpf.WantUpdate (bpf.NewConsumer "AcctDestroy" 1 0) = true /\
  bpf.WantDestroy (bpf.NewConsumer "AcctDestroy" 1 0) = true /\
  (bpf.WantUpdate (bpf.NewConsumer "AcctDestroy" 1 2) = true <-> Z.testbit 2 0 = true) /\
  (bpf.WantDestroy (bpf.NewConsumer "AcctDestroy" 1 2) = true <-> Z.testbit 2 1 = true).
Proof.
  destruct (NewConsumer_mode_zero_means_all "AcctDestroy" 1 2) as (H1 & H2 & H3).
  split; [exact H1 | split; [exact H2 | apply H3; lia]].
Defined.

(** ** The consumer registry *)

Section Registry.

Implicit Types (ap : bpf.Probe) (c : bpf.Consumer) (l : list bpf.Consumer).

Lemma range_name_absent n i l :
  (forall c, c ∈ l -> bpf.name c <> n) ->
  bpf.range_name n i (Some <$> l) = Ret None.
Proof.
  revert i. induction l as [| c l IH]; intros i Hl; [reflexivity |].
  cbn. destruct (String.eqb_spec (bpf.name c) n) as [E | _].
  - exfalso. apply (Hl c); [left | exact E].
  - apply IH. intros c' Hc'. apply Hl. right. exact Hc'.
Qed.

Lemma range_name_present n i l c :
  c ∈ l -> bpf.name c = n ->
  exists j c', bpf.range_name n i (Some <$> l) = Ret (Some ((i + j)%nat, c')) /\
               l !! j = Some c' /\ bpf.name c' = n.
Proof.
  revert i. induction l as [| c0 l IH]; intros i Hin Hn.
  - inversion Hin.
  - cbn. destruct (String.eqb_spec (bpf.name c0) n) as [E | NE].
    + exists 0%nat, c0. rewrite Nat.add_0_r. auto.
    + apply elem_of_cons in Hin as [-> | Hin]; [contradiction |].
      destruct (IH (S i) Hin Hn) as (j & c' & Hr & Hj & Hc').
      exists (S j), c'. rewrite Nat.add_succ_r. auto.
Qed.

Lemma range_name_found n i l j c :
  bpf.range_name n i (Some <$> l) = Ret (Some (j, c)) ->
  (i <= j)%nat /\ l !! (j - i)%nat = Some c /\ bpf.name c = n.
Proof.
  revert i. induction l as [| c0 l IH]; intros i; cbn; [discriminate |].
  destruct (String.eqb_spec (bpf.name c0) n) as [E | NE].
  - intros [= <- <-]. rewrite Nat.sub_diag. auto.
  - intros H. apply IH in H as (Hle & Hl & Hn).
    split; [lia | split; [| exact Hn]].
    replace (j - i)%nat with (S (j - S i)) by lia. exact Hl.
Qed.

Lemma valid_len ap :
  valid_registry ap -> slice.len (bpf.consumers ap) = length (registry ap).
Proof.
  intros (Hwf & Hvis & _). unfold slice.wf in Hwf.
  apply (f_equal length) in Hvis. rewrite length_fmap in Hvis.
  unfold slice.visible in Hvis. rewrite length_take in Hvis. lia.
Qed.

Lemma valid_lookup ap i :
  valid_registry ap -> (i < slice.len (bpf.consumers ap))%nat ->
  slice.arr (bpf.consumers ap) !! i = Some <$> registry ap !! i.
Proof.
  intros (Hwf & Hvis & _) Hi.
  rewrite <- list_lookup_fmap, <- Hvis. unfold slice.visible.
  symmetry. apply lookup_take_lt. exact Hi.
Qed.

Lemma registry_of_visible (cs : slice.t bpf.Consumer) st l :
  slice.visible cs = Some <$> l -> registry (bpf.mkProbe cs st) = l.
Proof.
  intros H. unfold registry. cbn. rewrite H. clear H.
  induction l as [| c l IH]; [reflexivity |]. cbn. f_equal. exact IH.
Qed.

Lemma empty_probe_valid : valid_registry empty_probe.
Proof.
  split; [| split]; cbn.
  - unfold slice.wf. cbn. lia.
  - reflexivity.
  - constructor.
Qed.

Lemma append_visible {A : Type} (cs : slice.t A) (x : option A) :
  slice.wf cs ->
  slice.visible (slice.append cs x) = slice.visible cs ++ [x] /\
  slice.wf (slice.append cs x).
Proof.
  unfold slice.wf, slice.append, slice.visible. intros Hwf.
  destruct (Nat.ltb_spec (slice.len cs) (length (slice.arr cs))) as [Hlt | Hge]; cbn.
  - split; [| rewrite length_insert; lia].
    rewrite (take_S_r _ _ x) by (apply list_lookup_insert_eq; exact Hlt).
    rewrite take_insert_ge by lia. reflexivity.
  - split.
    + rewrite (cons_middle x), app_assoc. apply take_app_length'.
      rewrite length_app, length_take. cbn. lia.
    + rewrite length_app, length_take. cbn. lia.
Qed.

(** C5. On a probe whose consumer list is in a valid state,
    [RegisterConsumer] returns [errConsumerNil] for the nil consumer,
    returns [errDupConsumer] and leaves the probe as it was when a
    registered consumer already has the name, and otherwise returns nil
    with the consumer appended at the end of the list. *)
Theorem RegisterConsumer_contract ap (ac : option bpf.Consumer) :
  valid_registry ap ->
  (ac = None -> bpf.RegisterConsumer ap ac = Ret (Some errConsumerNil, ap)) /\
  (forall c, ac = Some c ->
     (exists c', c' ∈ registry ap /\ bpf.name c' = bpf.name c) ->
     bpf.RegisterConsumer ap ac = Ret (Some errDupConsumer, ap)) /\
  (forall c, ac = Some c ->
     (forall c', c' ∈ registry ap -> bpf.name c' <> bpf.name c) ->
     exists ap', bpf.RegisterConsumer ap ac = Ret (None, ap') /\
                 registry ap' = registry ap ++ [c] /\
                 valid_registry ap').
Proof.
  intros Hv. pose proof Hv as (Hwf & Hvis & Hnd).
  split; [intros ->; reflexivity | split]; intros c -> Hc; unfold bpf.RegisterConsumer.
  - destruct Hc as (c' & Hin & Hn).
    destruct (range_name_present (bpf.name c) 0 _ _ Hin Hn) as (j & c'' & Hr & _).
    rewrite Hvis, Hr. reflexivity.
  - rewrite Hvis, (range_name_absent _ _ _ Hc). cbn.
    eexists; split; [reflexivity |].
    destruct (append_visible (bpf.consumers ap) (Some c) Hwf) as [Happ Hwf'].
    assert (Hvis' : slice.visible (slice.append (bpf.consumers ap) (Some c))
                    = Some <$> (registry ap ++ [c])).
    { rewrite Happ, Hvis, fmap_app. reflexivity. }
    assert (Hreg : registry (bpf.set_consumers
                     (slice.append (bpf.consumers ap) (Some c)) ap)
                   = registry ap ++ [c]).
    { apply registry_of_visible. exact Hvis'. }
    split; [exact Hreg |].
    split; [exact Hwf' | split].
    + rewrite Hreg. exact Hvis'.
    + rewrite Hreg, fmap_app. apply NoDup_app. split; [exact Hnd | split].
      * intros n Hn1 Hn2. apply list_elem_of_fmap in Hn1 as (c' & -> & Hc').
        cbn in Hn2. apply list_elem_of_singleton in Hn2. exact (Hc c' Hc' Hn2).
      * cbn. apply NoDup_singleton.
Qed.

Lemma RegisterConsumer_contract_witness :
  exists ap1 ap2,
    bpf.RegisterConsumer empty_probe
      (Some (bpf.NewConsumer "AcctUpdate" 0 bpf.ConsumerUpdate)) = Ret (None, ap1) /\
    registry ap1 = [bpf.NewConsumer "AcctUpdate" 0 bpf.ConsumerUpdate] /\
    bpf.RegisterConsumer ap1
      (Some (bpf.NewConsumer "AcctDestroy" 1 bpf.ConsumerDestroy)) = Ret (None, ap2) /\
    registry ap2 = [bpf.NewConsumer "AcctUpdate" 0 bpf.ConsumerUpdate;
                    bpf.NewConsumer "AcctDestroy" 1 bpf.ConsumerDestroy] /\
    bpf.RegisterConsumer ap2 (Some (bpf.NewConsumer "AcctUpdate" 7 0))
      = Ret (Some errDupConsumer, ap2) /\
    bpf.RegisterConsumer ap2 None = Ret (Some errConsumerNil, ap2).
Proof.
  set (au := bpf.NewConsumer "AcctUpdate" 0 bpf.ConsumerUpdate).
  set (ad := bpf.NewConsumer "AcctDestroy" 1 bpf.ConsumerDestroy).
  destruct (RegisterConsumer_contract empty_probe (Some au) empty_probe_valid)
    as (_ & _ & H1).
  destruct (H1 au eq_refl) as (ap1 & Hr1 & Hreg1 & Hv1).
  { intros c' Hc'. cbn in Hc'. inversion Hc'. }
  destruct (RegisterConsumer_contract ap1 (Some ad) Hv1) as (_ & _ & H2).
  destruct (H2 ad eq_refl) as (ap2 & Hr2 & Hreg2 & Hv2).
  { intros c' Hc'. rewrite Hreg1 in Hc'. cbn in Hc'.
    apply list_elem_of_singleton in Hc'. subst c'. cbn. discriminate. }
  destruct (RegisterConsumer_contract ap2
              (Some (bpf.NewConsumer "AcctUpdate" 7 0)) Hv2) as (_ & H3 & _).
  destruct (RegisterConsumer_contract ap2 None Hv2) as (H4 & _).
  exists ap1, ap2. rewrite Hreg1 in Hreg2.
  split; [exact Hr1 | split; [exact Hreg1 | split; [exact Hr2 |]]].
  split; [exact Hreg2 | split].
  - apply (H3 _ eq_refl). exists au. split; [| reflexivity].
    rewrite Hreg2. cbn. left.
  - apply H4. reflexivity.
Defined.

Lemma bind_Ret {A B : Type} (a : A) (k : A -> outcome B) : (Ret a ≫= k) = k a.
Proof. reflexivity. Qed.

Lemma slice_get_ok {A : Type} (cs : slice.t A) (i : nat) (x : option A) :
  (i < slice.len cs)%nat -> slice.arr cs !! i = Some x -> slice.get cs i = Ret x.
Proof.
  intros Hi Hx. unfold slice.get.
  destruct (Nat.ltb_spec i (slice.len cs)) as [_ | ?]; [| lia].
  rewrite Hx. reflexivity.
Qed.

Lemma slice_set_ok {A : Type} (cs : slice.t A) (i : nat) (x : option A) :
  (i < slice.len cs)%nat ->
  slice.set cs i x = Ret (slice.mk (<[i := x]> (slice.arr cs)) (slice.len cs)).
Proof.
  intros Hi. unfold slice.set.
  destruct (Nat.ltb_spec i (slice.len cs)) as [_ | ?]; [reflexivity | lia].
Qed.

Lemma slice_prefix_ok {A : Type} (cs : slice.t A) (n : nat) :
  (n <= length (slice.arr cs))%nat ->
  slice.prefix cs n = Ret (slice.mk (slice.arr cs) n).
Proof.
  intros Hn. unfold slice.prefix.
  destruct (Nat.leb_spec n (length (slice.arr cs))) as [_ | ?]; [reflexivity | lia].
Qed.

Lemma swap_remove_perm l j c' lastc :
  l !! j = Some c' -> l !! (length l - 1)%nat = Some lastc ->
  l ≡ₚ c' :: take (length l - 1) (<[j := lastc]> l).
Proof.
  intros Hj Hlast.
  assert (Hjlt : (j < length l)%nat) by (eapply lookup_lt_Some; exact Hj).
  assert (Hl : exists l0, l = l0 ++ [lastc]).
  { exists (take (length l - 1) l). rewrite <- (take_S_r _ _ _ Hlast).
    replace (S (length l - 1)) with (length l) by lia.
    symmetry. apply take_ge. lia. }
  destruct Hl as [l0 ->]. rewrite length_app in *. cbn [length] in *.
  replace (length l0 + 1 - 1)%nat with (length l0) in * by lia.
  destruct (decide (j = length l0)) as [-> | Hne].
  - rewrite list_lookup_middle in Hj by reflexivity.
    assert (c' = lastc) as -> by congruence.
    rewrite list_insert_id by (apply list_lookup_middle; reflexivity).
    rewrite take_app_length. rewrite Permutation_app_comm. reflexivity.
  - assert (Hj0 : l0 !! j = Some c').
    { rewrite lookup_app_l in Hj by lia. exact Hj. }
    rewrite insert_app_l by lia.
    rewrite take_app_length' by (rewrite length_insert; lia).
    rewrite Permutation_app_comm. cbn.
    rewrite insert_take_drop by lia.
    rewrite <- Permutation_middle.
    etransitivity; [| apply perm_swap]. apply perm_skip.
    rewrite <- (take_drop_middle _ _ _ Hj0) at 1.
    symmetry. apply Permutation_middle.
Qed.

Lemma RemoveConsumer_found ap c j c' :
  valid_registry ap ->
  bpf.range_name (bpf.name c) 0 (Some <$> registry ap) = Ret (Some (j, c')) ->
  exists ap',
    bpf.RemoveConsumer ap (Some c) = Ret (None, ap') /\
    bpf.GetConsumer ap' (bpf.name c) = Ret None /\
    slice.arr (bpf.consumers ap') !! slice.len (bpf.consumers ap') = Some None /\
    S (slice.len (bpf.consumers ap')) = slice.len (bpf.consumers ap) /\
    registry ap ≡ₚ c' :: registry ap' /\
    valid_registry ap'.
Proof.
  intros Hv Hr. pose proof Hv as (Hwf & Hvis & Hnd).
  pose proof (valid_len _ Hv) as Hlen.
  apply range_name_found in Hr as Hf. destruct Hf as (_ & Hj & Hn).
  rewrite Nat.sub_0_r in Hj.
  assert (Hjlt : (j < length (registry ap))%nat) by (eapply lookup_lt_Some; exact Hj).
  destruct (lookup_lt_is_Some_2 (registry ap) (length (registry ap) - 1)%nat
              ltac:(lia)) as [lastc Hlast].
  set (l := registry ap) in *. set (cs := bpf.consumers ap) in *.
  unfold slice.wf in Hwf.
  set (arr' := <[(slice.len cs - 1)%nat := None]> (<[j := Some lastc]> (slice.arr cs))).
  assert (Hrm : bpf.RemoveConsumer ap (Some c)
                = Ret (None, bpf.set_consumers (slice.mk arr' (slice.len cs - 1)) ap)).
  { unfold bpf.RemoveConsumer. fold cs. rewrite Hvis. fold l. rewrite Hr.
    rewrite bind_Ret.
    rewrite (slice_get_ok cs (slice.len cs - 1) (Some lastc)); [| lia |].
    2:{ unfold cs. rewrite (valid_lookup ap _ Hv) by (fold cs; lia). fold l.
        fold cs. rewrite Hlen, Hlast. reflexivity. }
    rewrite bind_Ret, slice_set_ok, bind_Ret by lia.
    rewrite slice_set_ok, bind_Ret by (cbn; lia).
    rewrite slice_prefix_ok, bind_Ret by (cbn; rewrite !length_insert; lia).
    cbn. unfold arr'. rewrite Hlen. reflexivity. }
  set (l' := take (length l - 1) (<[j := lastc]> l)).
  assert (Hvis' : slice.visible (slice.mk arr' (slice.len cs - 1)) = Some <$> l').
  { unfold slice.visible, arr', l'. cbn.
    rewrite take_insert_ge by lia.
    replace (slice.len cs - 1)%nat with (Nat.min (slice.len cs - 1) (slice.len cs)) at 1 by lia.
    rewrite <- take_take, take_insert_lt by lia.
    fold (slice.visible cs). rewrite Hvis. fold l.
    rewrite <- list_fmap_insert, <- fmap_take, Hlen. reflexivity. }
  pose proof (swap_remove_perm l j c' lastc Hj Hlast) as Hperm. fold l' in Hperm.
  assert (Hreg : registry (bpf.set_consumers (slice.mk arr' (slice.len cs - 1)) ap) = l').
  { apply registry_of_visible. exact Hvis'. }
  assert (Hnd' : NoDup (bpf.name c' :: (bpf.name <$> l'))).
  { rewrite <- fmap_cons, <- Hperm. exact Hnd. }
  apply NoDup_cons in Hnd' as [Hnotin Hnd'].
  eexists. split; [exact Hrm |].
  split; [| split; [| split; [| split; [| split; [| split]]]]].
  - unfold bpf.GetConsumer. cbn [bpf.consumers bpf.set_consumers]. rewrite Hvis'.
    rewrite range_name_absent; [reflexivity |].
    intros c'' Hc'' Hn''. apply Hnotin. rewrite Hn, <- Hn''.
    apply list_elem_of_fmap_2. exact Hc''.
  - cbn. unfold arr'. apply list_lookup_insert_eq. rewrite length_insert. lia.
  - cbn. lia.
  - rewrite Hreg. exact Hperm.
  - unfold slice.wf. cbn. unfold arr'. rewrite !length_insert. lia.
  - rewrite Hreg. exact Hvis'.
  - rewrite Hreg. exact Hnd'.
Qed.

(** C6. On a probe whose consumer list is in a valid state:
    [RemoveConsumer] returns [errNoConsumer] and leaves the probe as it
    was when no registered consumer has the name; it succeeds when one
    has; and after it succeeded, [GetConsumer] finds no consumer of that
    name, the slot vacated at the end of the backing array holds nil, the
    list is one shorter, and the consumers left are the former ones
    without the removed one. *)
Theorem RemoveConsumer_roundtrip ap c :
  valid_registry ap ->
  ((forall c', c' ∈ registry ap -> bpf.name c' <> bpf.name c) ->
   bpf.RemoveConsumer ap (Some c) = Ret (Some errNoConsumer, ap)) /\
  ((exists c', c' ∈ registry ap /\ bpf.name c' = bpf.name c) ->
   exists ap', bpf.RemoveConsumer ap (Some c) = Ret (None, ap')) /\
  (forall ap', bpf.RemoveConsumer ap (Some c) = Ret (None, ap') ->
     bpf.GetConsumer ap' (bpf.name c) = Ret None /\
     slice.arr (bpf.consumers ap') !! slice.len (bpf.consumers ap') = Some None /\
     S (slice.len (bpf.consumers ap')) = slice.len (bpf.consumers ap) /\
     (exists c', bpf.name c' = bpf.name c /\ registry ap ≡ₚ c' :: registry ap') /\
     valid_registry ap').
Proof.
  intros Hv. pose proof Hv as (Hwf & Hvis & Hnd).
  split; [| split].
  - intros Habs. unfold bpf.RemoveConsumer.
    rewrite Hvis, (range_name_absent _ _ _ Habs). reflexivity.
  - intros (c' & Hin & Hn).
    destruct (range_name_present (bpf.name c) 0 _ _ Hin Hn) as (j & c'' & Hr & _).
    destruct (RemoveConsumer_found ap c _ c'' Hv Hr) as (ap' & Hrm & _).
    exists ap'. exact Hrm.
  - intros ap' Hrm.
    destruct (bpf.range_name (bpf.name c) 0 (Some <$> registry ap))
      as [[[j c'] |] | |] eqn:Hr.
    + destruct (RemoveConsumer_found ap c j c' Hv Hr)
        as (ap'' & Hrm' & Hget & Hslot & Hlen & Hperm & Hv').
      rewrite Hrm in Hrm'. injection Hrm' as ->.
      apply range_name_found in Hr as (_ & _ & Hn).
      split; [exact Hget | split; [exact Hslot | split; [exact Hlen |]]].
      split; [exists c'; split; [exact Hn | exact Hperm] | exact Hv'].
    + unfold bpf.RemoveConsumer in Hrm. rewrite Hvis, Hr in Hrm. discriminate.
    + unfold bpf.RemoveConsumer in Hrm. rewrite Hvis, Hr in Hrm. discriminate.
    + unfold bpf.RemoveConsumer in Hrm. rewrite Hvis, Hr in Hrm. discriminate.
Qed.

End Registry.

Lemma probe3_valid : valid_registry probe3.
Proof.
  split; [| split].
  - unfold slice.wf. cbn. lia.
  - reflexivity.
  - apply (bool_decide_unpack _). vm_compute. exact I.
Qed.

Lemma RemoveConsumer_roundtrip_witness :
  bpf.RemoveConsumer probe3 (Some (bpf.NewConsumer "d" 9 0))
    = Ret (Some errNoConsumer, probe3) /\
  exists ap',
    bpf.RemoveConsumer probe3 (Some (bpf.NewConsumer "a" 9 0)) = Ret (None, ap') /\
    bpf.GetConsumer ap' "a" = Ret None /\
    slice.arr (bpf.consumers ap') !! slice.len (bpf.consumers ap') = Some None /\
    registry ap' = [bpf.NewConsumer "c" 2 0; bpf.NewConsumer "b" 1 2].
Proof.
  destruct (RemoveConsumer_roundtrip probe3 (bpf.NewConsumer "d" 9 0) probe3_valid)
    as (Habs & _ & _).
  destruct (RemoveConsumer_roundtrip probe3 (bpf.NewConsumer "a" 9 0) probe3_valid)
    as (_ & Hex & Hafter).
  split.
  - apply Habs. intros c' Hc'.
    cbn in Hc'. rewrite !elem_of_cons in Hc'.
    destruct Hc' as [-> | [-> | [-> | Hc']]]; [discriminate .. | inversion Hc'].
  - destruct Hex as [ap' Hrm].
    { exists (bpf.NewConsumer "a" 0 1). split; [left | reflexivity]. }
    destruct (Hafter ap' Hrm) as (Hget & Hslot & _).
    exists ap'. split; [exact Hrm | split; [exact Hget | split; [exact Hslot |]]].
    cbv in Hrm. injection Hrm as <-. reflexivity.
Defined.

(** ** The cooldown filter *)

(** C4. The cooldown filter, for every flow key: an Update is dropped,
    the table untouched, when a last delivered timestamp exists for its
    key and lies less than the cooldown before it; otherwise it is
    delivered and its timestamp recorded for the key; a Destroy is always
    delivered and its key removed.  The pipeline configures a cooldown of
    2000 ms. *)
Theorem cooldown_filter_rule (cd : Z) (e : Event) (last : gmap (Z * Z) Z) :
  bpf.CooldownMillis pipeline.acctConfig = 2000 /\
  (forall t, last !! bpf.flow_key e = Some t -> Timestamp e - t < cd ->
     bpf.cooldown cd bpf.Update e last = (false, last)) /\
  ((last !! bpf.flow_key e = None \/
    exists t, last !! bpf.flow_key e = Some t /\ cd <= Timestamp e - t) ->
   bpf.cooldown cd bpf.Update e last
     = (true, <[bpf.flow_key e := Timestamp e]> last) /\
   snd (bpf.cooldown cd bpf.Update e last) !! bpf.flow_key e = Some (Timestamp e)) /\
  (bpf.cooldown cd bpf.Destroy e last = (true, delete (bpf.flow_key e) last) /\
   snd (bpf.cooldown cd bpf.Destroy e last) !! bpf.flow_key e = None).
Proof.
  split; [reflexivity |]. unfold bpf.cooldown. split; [| split].
  - intros t -> Hlt. destruct (Z.ltb_spec (Timestamp e - t) cd); [reflexivity | lia].
  - intros [-> | (t & -> & Hge)].
    + split; [reflexivity |]. apply lookup_insert_eq.
    + destruct (Z.ltb_spec (Timestamp e - t) cd); [lia |].
      split; [reflexivity |]. apply lookup_insert_eq.
  - split; [reflexivity |]. apply lookup_delete_eq.
Qed.

Lemma cooldown_filter_rule_witness :
  bpf.cooldown 2000 bpf.Update (event_at 1 7 500) {[ (1, 7) := 0 ]}
    = (false, {[ (1, 7) := 0 ]}) /\
  bpf.cooldown 2000 bpf.Update (event_at 1 7 2100) {[ (1, 7) := 0 ]}
    = (true, <[ (1, 7) := 2100 ]> {[ (1, 7) := 0 ]}) /\
  bpf.cooldown 2000 bpf.Update (event_at 1 7 0) ∅ = (true, <[ (1, 7) := 0 ]> ∅).
Proof.
  destruct (cooldown_filter_rule 2000 (event_at 1 7 500) {[ (1, 7) := 0 ]})
    as (_ & Hdrop & _).
  destruct (cooldown_filter_rule 2000 (event_at 1 7 2100) {[ (1, 7) := 0 ]})
    as (_ & _ & Hpass & _).
  destruct (cooldown_filter_rule 2000 (event_at 1 7 0) ∅) as (_ & _ & Hnew & _).
  split; [| split].
  - apply (Hdrop 0); [reflexivity | cbn; lia].
  - apply Hpass. right. exists 0. split; [reflexivity | cbn; lia].
  - apply Hnew. left. reflexivity.
Defined.

(** Scenario S1: three Updates of one flow at 0, 500 and 2100 ms with a
    cooldown of 2000 ms; the first and the last are delivered. *)
Example cooldown_S1 :
  fst (bpf.cooldown_run 2000
         [(bpf.Update, event_at 1 7 0); (bpf.Update, event_at 1 7 500);
          (bpf.Update, event_at 1 7 2100)] ∅)
  = [(bpf.Update, event_at 1 7 0); (bpf.Update, event_at 1 7 2100)].
Proof. reflexivity. Qed.

(** Scenario S2: an Update at 0 and a Destroy at 10 ms of the same flow
    are both delivered and the entry is gone. *)
Example cooldown_S2 :
  bpf.cooldown_run 2000
    [(bpf.Update, event_at 1 7 0); (bpf.Destroy, event_at 1 7 10)] ∅
  = ([(bpf.Update, event_at 1 7 0); (bpf.Destroy, event_at 1 7 10)], ∅).
Proof. vm_compute. reflexivity. Qed.

(** ** The pipeline: registration and life cycle *)

Section PipelineLifecycle.

Context {S : Type} `{!sinks.Sink S}.
Variable NewProbe : bpf.Config -> error + bpf.Probe.
Variable ProbeStart : bpf.Probe -> option error * bpf.Probe.

Implicit Types (p q : pipeline.Pipeline (S := S)).

(** C8. [RegisterSink] returns [errSinkNotInit] and leaves the pipeline
    as it was when the sink is not initialized; otherwise it returns nil
    and the sink list is the former one with the sink appended, nothing
    else of the struct being changed. *)
Theorem RegisterSink_contract p (s : S) :
  (sinks.IsInit s = false ->
   pipeline.RegisterSink p s = (Some errSinkNotInit, p)) /\
  (sinks.IsInit s = true ->
   exists p', pipeline.RegisterSink p s = (None, p') /\
              pipeline.acctSinks p' = pipeline.acctSinks p ++ [s] /\
              pipeline.GetSinks p' = pipeline.GetSinks p ++ [s] /\
              pipeline.stats p' = pipeline.stats p /\
              pipeline.acctProbe p' = pipeline.acctProbe p).
Proof.
  unfold pipeline.RegisterSink. split; intros ->; cbn [negb].
  - reflexivity.
  - eexists. split; [reflexivity |].
    destruct (sinks.WantDestroy s); cbn; auto.
Qed.

(** A pipeline on which [Init] never succeeded holds no probe. *)
Lemma Init_failed_no_probe p err p' :
  pipeline.acctProbe p = None ->
  pipeline.Init NewProbe p = Ret (Some err, p') ->
  pipeline.acctProbe p' = None.
Proof.
  intros Hp. unfold pipeline.Init, pipeline.initAcct.
  destruct (pipeline.init p); [discriminate |].
  destruct (NewProbe pipeline.acctConfig) as [e | ap].
  - cbn. intros [= _ <-]. exact Hp.
  - repeat (match goal with
            | |- context [bpf.RegisterConsumer ?a ?c] =>
                destruct (bpf.RegisterConsumer a c) as [[[? |] ?] | |]
            end; cbn -[bpf.RegisterConsumer]);
      try discriminate; intros [= _ <-]; exact Hp.
Qed.

(** [Stop] on a pipeline that holds no probe faults. *)
Lemma Stop_without_probe p :
  pipeline.acctProbe p = None -> pipeline.Stop p = Panic.
Proof. intros Hp. unfold pipeline.Stop. rewrite Hp. reflexivity. Qed.

(** [Stop] on a pipeline whose probe is not running returns
    [errProbeNotStarted]. *)
Lemma Stop_not_running p ap :
  pipeline.acctProbe p = Some ap -> bpf.state ap <> bpf.Running ->
  exists p', pipeline.Stop p = Ret (Some errProbeNotStarted, p').
Proof.
  intros Hp Hst. unfold pipeline.Stop. rewrite Hp. cbn.
  destruct (bpf.state ap); try contradiction; eexists; reflexivity.
Qed.

(** [Stop] on a pipeline whose probe is running stops the probe and
    returns nil. *)
Lemma Stop_running p ap :
  pipeline.acctProbe p = Some ap -> bpf.state ap = bpf.Running ->
  pipeline.Stop p
  = Ret (None, pipeline.set_acctProbe (Some (bpf.set_state bpf.Stopped ap)) p).
Proof.
  intros Hp Hst. unfold pipeline.Stop. rewrite Hp. cbn. rewrite Hst. reflexivity.
Qed.

(** Once the start gate is consumed, [Start] on a pipeline holding a
    probe returns nil and changes nothing. *)
Lemma Start_gate_consumed q :
  pipeline.start q = true -> pipeline.acctProbe q <> None ->
  pipeline.Start ProbeStart q = (None, q).
Proof.
  intros Hs Hp. unfold pipeline.Start.
  destruct (pipeline.acctProbe q); [| contradiction]. rewrite Hs. reflexivity.
Qed.

(** C10. If [Start] on a pipeline that holds a probe returns an error,
    then however many further calls to [Start] are made, the next one
    returns nil and leaves the pipeline as the failed call left it: no
    goroutine is launched and the probe is not started again, the gate
    having been consumed by the failed attempt. *)
Theorem Start_after_failed_Start p err p1 :
  pipeline.acctProbe p <> None ->
  pipeline.Start ProbeStart p = (Some err, p1) ->
  pipeline.start p = false /\
  pipeline.start p1 = true /\
  forall n : nat,
    pipeline.Start ProbeStart
      (Nat.iter n (fun q => snd (pipeline.Start ProbeStart q)) p1) = (None, p1).
Proof.
  intros Hp Hs. unfold pipeline.Start in Hs.
  destruct (pipeline.acctProbe p) as [ap |] eqn:Hap; [| contradiction].
  destruct (pipeline.start p) eqn:Hst; [discriminate |].
  unfold pipeline.startAcct in Hs.
  destruct (ProbeStart ap) as [[e |] ap'] eqn:Hps; [| discriminate].
  injection Hs as _ <-.
  split; [reflexivity | split; [reflexivity |]].
  set (p1 := pipeline.set_start true _).
  assert (H1 : pipeline.Start ProbeStart p1 = (None, p1)).
  { apply Start_gate_consumed; [reflexivity | discriminate]. }
  intros n. induction n as [| n IH].
  - exact H1.
  - rewrite Nat.iter_succ, IH. exact H1.
Qed.

End PipelineLifecycle.

(** C1, as the code has it: [Stop] on a pipeline fresh from [New], on
    which [Init] was never called, faults instead of returning
    [errProbeNotStarted]; so does [Stop] after an [Init] that failed. *)
Theorem Stop_faults_before_Init :
  pipeline.Stop (pipeline.New (S := collector)) = Panic /\
  exists err p,
    pipeline.Init NewProbe_fail (pipeline.New (S := collector)) = Ret (Some err, p) /\
    pipeline.Stop p = Panic.
Proof.
  split; [reflexivity |]. eexists. eexists. split; reflexivity.
Qed.

Lemma RegisterSink_contract_witness :
  pipeline.RegisterSink pipeline.New (mkCollector "A" false true false [])
    = (Some errSinkNotInit, pipeline.New) /\
  exists p',
    pipeline.RegisterSink pipeline.New (mkCollector "A" true true false []) = (None, p') /\
    pipeline.acctSinks p' = [mkCollector "A" true true false []].
Proof.
  destruct (RegisterSink_contract pipeline.New (mkCollector "A" false true false []))
    as [Hno _].
  destruct (RegisterSink_contract pipeline.New (mkCollector "A" true true false []))
    as [_ Hyes].
  split; [apply Hno; reflexivity |].
  destruct (Hyes eq_refl) as (p' & Hr & Hs & _).
  exists p'. split; [exact Hr | exact Hs].
Defined.

Lemma Start_after_failed_Start_witness :
  exists err p1,
    pipeline.Start ProbeStart_fail initialized_pipeline = (Some err, p1) /\
    pipeline.effects p1
      = [pipeline.GoUpdateWorker; pipeline.GoDestroyWorker; pipeline.ProbeStartCall] /\
    pipeline.Start ProbeStart_fail p1 = (None, p1) /\
    pipeline.Start ProbeStart_fail (snd (pipeline.Start ProbeStart_fail p1)) = (None, p1).
Proof.
  eexists. eexists. split; [reflexivity |]. split; [reflexivity |].
  match goal with
  | |- pipeline.Start _ ?q = _ /\ _ =>
      destruct (Start_after_failed_Start ProbeStart_fail initialized_pipeline
                  (Wrap (errExternal "opening perf map") "starting Probe") q)
        as (_ & _ & Hn)
  end.
  - discriminate.
  - reflexivity.
  - split; [exact (Hn 0%nat) | exact (Hn 1%nat)].
Defined.

(** ** The pipeline workers: statistics *)

Section WorkerStats.

Variable EventLength : Z.

Local Abbreviation exec_op := (pipeline.exec_op EventLength).
Local Abbreviation exec_ops := (pipeline.exec_ops EventLength).
Local Abbreviation stat_conservation := (pipeline.stat_conservation EventLength).

Lemma exec_op_congr op s1 s2 :
  counters s1 = counters s2 -> counters (exec_op op s1) = counters (exec_op op s2).
Proof.
  destruct s1, s2. unfold counters. cbn. intros [= -> -> -> -> -> ->].
  destruct op; reflexivity.
Qed.

Lemma exec_ops_congr ops s1 s2 :
  counters s1 = counters s2 -> counters (exec_ops ops s1) = counters (exec_ops ops s2).
Proof.
  revert s1 s2. induction ops as [| op ops IH]; intros s1 s2 H; [exact H |].
  cbn. apply IH, exec_op_congr, H.
Qed.

(** The atomic operations commute on the counters. *)
Lemma exec_op_comm x y s :
  counters (exec_op x (exec_op y s)) = counters (exec_op y (exec_op x s)).
Proof. destruct x, y; reflexivity. Qed.

(** The counters do not depend on the schedule of the operations. *)
Lemma exec_ops_perm ops1 ops2 s :
  ops1 ≡ₚ ops2 -> counters (exec_ops ops1 s) = counters (exec_ops ops2 s).
Proof.
  intros Hp. revert s.
  induction Hp as [| x l l' _ IH | x y l | l l' l'' _ IH1 _ IH2]; intros s.
  - reflexivity.
  - cbn. apply IH.
  - cbn. apply exec_ops_congr, exec_op_comm.
  - rewrite IH1. apply IH2.
Qed.

Lemma interleave_perm {A : Type} (l r m : list A) :
  pipeline.interleave l r m -> m ≡ₚ l ++ r.
Proof.
  induction 1 as [| x l r m _ IH | x l r m _ IH].
  - reflexivity.
  - cbn. rewrite IH. reflexivity.
  - rewrite IH. apply Permutation_middle.
Qed.

Lemma exec_ops_app ops1 ops2 s :
  exec_ops (ops1 ++ ops2) s = exec_ops ops2 (exec_ops ops1 s).
Proof. revert s. induction ops1 as [| op ops1 IH]; intros s; [reflexivity | apply IH]. Qed.

Lemma stat_conservation_congr s1 s2 :
  counters s1 = counters s2 -> stat_conservation s1 -> stat_conservation s2.
Proof.
  destruct s1, s2. unfold counters, pipeline.stat_conservation. cbn.
  intros [= -> -> -> -> -> ->]. exact id.
Qed.

Lemma update_block_conservation qlen s :
  stat_conservation s -> stat_conservation (exec_ops (pipeline.update_stat_ops qlen) s).
Proof.
  destruct s as [et bt eu bu ed bd qu qd].
  unfold pipeline.stat_conservation. cbn. unfold add64, mul64. intros [-> ->]. split.
  - rewrite !Zplus_mod_idemp_l. f_equal. lia.
  - generalize ((eu + ed) mod u64). intros et.
    rewrite Zplus_mod_idemp_l, Zmult_mod_idemp_l. f_equal. lia.
Qed.

Lemma destroy_block_conservation qlen s :
  stat_conservation s -> stat_conservation (exec_ops (pipeline.destroy_stat_ops qlen) s).
Proof.
  destruct s as [et bt eu bu ed bd qu qd].
  unfold pipeline.stat_conservation. cbn. unfold add64, mul64. intros [-> ->]. split.
  - rewrite Zplus_mod_idemp_l, Zplus_mod_idemp_r. f_equal. lia.
  - generalize ((eu + ed) mod u64). intros et.
    rewrite Zplus_mod_idemp_l, Zmult_mod_idemp_l. f_equal. lia.
Qed.

Lemma blocks_conservation (block : Z -> list pipeline.stat_op) qs s :
  (forall q s, stat_conservation s -> stat_conservation (exec_ops (block q) s)) ->
  stat_conservation s -> stat_conservation (exec_ops (concat (map block qs)) s).
Proof.
  intros Hb. revert s. induction qs as [| q qs IH]; intros s Hs; [exact Hs |].
  cbn. rewrite exec_ops_app. apply IH, Hb, Hs.
Qed.

Lemma zeroStats_conservation : stat_conservation pipeline.zeroStats.
Proof. split; cbn; unfold add64, mul64; [reflexivity |]. rewrite Z.mul_0_l. reflexivity. Qed.

(** One iteration of either worker keeps stat conservation. *)
Lemma worker_iter_conservation {S : Type} `{!sinks.Sink S}
  (p p' : pipeline.Pipeline (S := S)) (b : bool) :
  stat_conservation (pipeline.stats p) ->
  pipeline.acctUpdateWorker_iter EventLength p = Ret (b, p') \/
  pipeline.acctDestroyWorker_iter EventLength p = Ret (b, p') ->
  stat_conservation (pipeline.stats p').
Proof.
  intros Hs [Hw | Hw];
    unfold pipeline.acctUpdateWorker_iter, pipeline.acctDestroyWorker_iter in Hw.
  - destruct (recv (pipeline.acctUpdateChan p)) as [[[ae |] ch] | |];
      cbn -[pipeline.exec_ops pipeline.update_stat_ops] in Hw; try discriminate.
    + destruct (pipeline.fanout _ _ _ _) as [ss calls].
      injection Hw as _ <-. cbn -[pipeline.exec_ops pipeline.update_stat_ops].
      apply update_block_conservation, Hs.
    + injection Hw as _ <-. exact Hs.
  - destruct (recv (pipeline.acctDestroyChan p)) as [[[ae |] ch] | |];
      cbn -[pipeline.exec_ops pipeline.destroy_stat_ops] in Hw; try discriminate.
    + destruct (pipeline.fanout _ _ _ _) as [ss calls].
      injection Hw as _ <-. cbn -[pipeline.exec_ops pipeline.destroy_stat_ops].
      apply destroy_block_conservation, Hs.
    + injection Hw as _ <-. exact Hs.
Qed.

(** The counters after whole blocks of iterations. *)
Lemma update_blocks_counters qs s a b c d e f :
  counters s = (a mod u64, b mod u64, c mod u64, d mod u64, e, f) ->
  counters (exec_ops (concat (map pipeline.update_stat_ops qs)) s)
  = ((a + Z.of_nat (length qs)) mod u64,
     (b + Z.of_nat (length qs) * EventLength) mod u64,
     (c + Z.of_nat (length qs)) mod u64,
     (d + Z.of_nat (length qs) * EventLength) mod u64, e, f).
Proof.
  revert s a b c d. induction qs as [| q qs IH]; intros s a b c d Hs.
  - cbn. rewrite Hs, !Z.add_0_r. reflexivity.
  - cbn [map concat]. rewrite exec_ops_app.
    rewrite (IH _ (a + 1) (b + EventLength) (c + 1) (d + EventLength)).
    + cbn [length]. rewrite Nat2Z.inj_succ. repeat (f_equal; try lia).
    + destruct s. unfold counters in *. cbn in *. injection Hs as -> -> -> -> -> ->.
      unfold add64. rewrite !Zplus_mod_idemp_l. reflexivity.
Qed.

Lemma destroy_blocks_counters qs s a b c d e f :
  counters s = (a mod u64, b mod u64, c, d, e mod u64, f mod u64) ->
  counters (exec_ops (concat (map pipeline.destroy_stat_ops qs)) s)
  = ((a + Z.of_nat (length qs)) mod u64,
     (b + Z.of_nat (length qs) * EventLength) mod u64, c, d,
     (e + Z.of_nat (length qs)) mod u64,
     (f + Z.of_nat (length qs) * EventLength) mod u64).
Proof.
  revert s a b e f. induction qs as [| q qs IH]; intros s a b e f Hs.
  - cbn. rewrite Hs, !Z.add_0_r. reflexivity.
  - cbn [map concat]. rewrite exec_ops_app.
    rewrite (IH _ (a + 1) (b + EventLength) (e + 1) (f + EventLength)).
    + cbn [length]. rewrite Nat2Z.inj_succ. repeat (f_equal; try lia).
    + destruct s. unfold counters in *. cbn in *. injection Hs as -> -> -> -> -> ->.
      unfold add64. rewrite !Zplus_mod_idemp_l. reflexivity.
Qed.

(** X20. From the zero block, and as long as the byte counter has not
    wrapped, stat conservation holds on the integers, with the counters
    counting the iterations: after any schedule of complete iterations the
    update and destroy counters are the numbers of update and destroy
    iterations, the total is their sum and the byte total is the total
    times the event length. *)
Lemma stat_conservation_exact us ds ops :
  0 < EventLength ->
  (Z.of_nat (length us) + Z.of_nat (length ds)) * EventLength < u64 ->
  pipeline.interleave (concat (map pipeline.update_stat_ops us))
    (concat (map pipeline.destroy_stat_ops ds)) ops ->
  let s := exec_ops ops pipeline.zeroStats in
  pipeline.EventsUpdate s = Z.of_nat (length us) /\
  pipeline.EventsDestroy s = Z.of_nat (length ds) /\
  pipeline.EventsTotal s = pipeline.EventsUpdate s + pipeline.EventsDestroy s /\
  pipeline.AcctBytesTotal s = pipeline.EventsTotal s * EventLength.
Proof.
  intros HL Hbound Hi s.
  assert (Hc : counters s
               = ((Z.of_nat (length us) + Z.of_nat (length ds)) mod u64,
                  ((Z.of_nat (length us) + Z.of_nat (length ds)) * EventLength) mod u64,
                  Z.of_nat (length us) mod u64,
                  (Z.of_nat (length us) * EventLength) mod u64,
                  Z.of_nat (length ds) mod u64,
                  (Z.of_nat (length ds) * EventLength) mod u64)).
  { unfold s. rewrite (exec_ops_perm _ _ _ (interleave_perm _ _ _ Hi)), exec_ops_app.
    pose proof (update_blocks_counters us pipeline.zeroStats 0 0 0 0 0 0 eq_refl) as Hu.
    rewrite (destroy_blocks_counters ds _ _ _ _ _ 0 0 Hu).
    repeat (f_equal; try lia). }
  clearbody s. destruct s. unfold counters in Hc. cbn in *.
  injection Hc as -> -> -> -> -> ->.
  assert (0 <= Z.of_nat (length us) + Z.of_nat (length ds) < u64) by nia.
  rewrite !Z.mod_small by nia. auto.
Qed.

End WorkerStats.

(** C2. Stat conservation, in the [uint64] arithmetic of the counters
    ([EventsTotal = EventsUpdate + EventsDestroy] and
    [AcctBytesTotal = EventsTotal * EventLength], both modulo 2^64), is
    kept by the workers: from a [Stats] block that satisfies it, every
    schedule of the atomic counter operations of any number of complete
    iterations of the update worker and of the destroy worker ends in a
    block that satisfies it; in particular one iteration of either worker
    does. *)
Theorem stat_conservation_workers (EventLength : Z) (s : pipeline.Stats)
  (us ds : list Z) (ops : list pipeline.stat_op) :
  pipeline.stat_conservation EventLength s ->
  pipeline.interleave (concat (map pipeline.update_stat_ops us))
    (concat (map pipeline.destroy_stat_ops ds)) ops ->
  pipeline.stat_conservation EventLength (pipeline.exec_ops EventLength ops s).
Proof.
  intros Hs Hi. apply interleave_perm in Hi.
  eapply stat_conservation_congr.
  { symmetry. apply exec_ops_perm. exact Hi. }
  rewrite exec_ops_app.
  apply blocks_conservation; [apply destroy_block_conservation |].
  apply blocks_conservation; [apply update_block_conservation | exact Hs].
Qed.

Lemma stat_conservation_workers_witness :
  pipeline.stat_conservation 92
    (pipeline.exec_ops 92
       [pipeline.AddEventsTotal; pipeline.AddEventsTotal;
        pipeline.AddAcctBytesTotal; pipeline.AddEventsDestroy;
        pipeline.AddAcctBytesTotal; pipeline.AddEventsUpdate;
        pipeline.AddAcctBytesUpdate; pipeline.AddAcctBytesDestroy;
        pipeline.StoreAcctDestroyQueueLen 0; pipeline.StoreAcctUpdateQueueLen 3]
       pipeline.zeroStats).
Proof.
  apply (stat_conservation_workers 92 pipeline.zeroStats [3] [0]).
  - apply zeroStats_conservation.
  - cbn.
    apply pipeline.interleave_l, pipeline.interleave_r, pipeline.interleave_r,
      pipeline.interleave_r, pipeline.interleave_l, pipeline.interleave_l,
      pipeline.interleave_l, pipeline.interleave_r, pipeline.interleave_r,
      pipeline.interleave_l, pipeline.interleave_nil.
Defined.

(** ** The pipeline workers: fan-out *)

Section Fanout.

Context {S : Type} `{!sinks.Sink S}.
Variable EventLength : Z.

(** The fan-out loop started at position [i0]: the sink list keeps its
    length; the sink at offset [i] is pushed the event exactly when its
    filter accepts, and is otherwise left as it was; every call is made at
    a position of the list, none twice. *)
Lemma fanout_spec (want : S -> bool) (ae : Event) (ss : list S) (i0 : nat) :
  length (fst (pipeline.fanout want ae i0 ss)) = length ss /\
  (forall i s, ss !! i = Some s ->
     fst (pipeline.fanout want ae i0 ss) !! i
       = Some (if want s then sinks.Push ae s else s) /\
     ((i0 + i)%nat ∈ snd (pipeline.fanout want ae i0 ss) <-> want s = true)) /\
  (forall k, k ∈ snd (pipeline.fanout want ae i0 ss) ->
     (i0 <= k < i0 + length ss)%nat) /\
  NoDup (snd (pipeline.fanout want ae i0 ss)).
Proof.
  revert i0. induction ss as [| s0 ss IH]; intros i0.
  - cbn. split; [reflexivity | split; [| split]].
    + intros i s Hi. discriminate.
    + intros k Hk. inversion Hk.
    + constructor.
  - cbn [pipeline.fanout].
    destruct (IH (Datatypes.S i0)) as (Hlen & Hat & Hrange & Hnd).
    destruct (pipeline.fanout want ae (Datatypes.S i0) ss) as [ss' calls].
    cbn [fst snd] in *.
    assert (Hfresh : i0 ∉ calls).
    { intros Hin. apply Hrange in Hin. lia. }
    destruct (want s0) eqn:Hw0; cbn [fst snd length].
    + split; [f_equal; exact Hlen | split; [| split]].
      * intros [| i] s Hi; cbn in Hi.
        -- injection Hi as <-. rewrite Hw0, Nat.add_0_r. cbn.
           split; [reflexivity |]. split; [reflexivity | intros _; left].
        -- destruct (Hat i s Hi) as [Hs Hiff]. split; [exact Hs |].
           rewrite elem_of_cons, <- Hiff.
           replace (i0 + Datatypes.S i)%nat with (Datatypes.S i0 + i)%nat by lia.
           split; [intros [? | ?]; [lia | assumption] | right; assumption].
      * intros k Hk. apply elem_of_cons in Hk as [-> | Hk]; [lia |].
        apply Hrange in Hk. lia.
      * apply NoDup_cons. split; assumption.
    + split; [f_equal; exact Hlen | split; [| split]].
      * intros [| i] s Hi; cbn in Hi.
        -- injection Hi as <-. rewrite Hw0, Nat.add_0_r. cbn.
           split; [reflexivity |]. split; [contradiction | discriminate].
        -- destruct (Hat i s Hi) as [Hs Hiff]. split; [exact Hs |].
           replace (i0 + Datatypes.S i)%nat with (Datatypes.S i0 + i)%nat by lia.
           exact Hiff.
      * intros k Hk. apply Hrange in Hk. lia.
      * exact Hnd.
Qed.

(** C3. When a worker dequeues an event, its iteration completes, and the
    [Push] calls it makes are calls with that event, at most one per
    position of the sink list: the sink at position [i] is called exactly
    when its filter for the channel's kind accepts ([WantUpdate] for the
    update worker, [WantDestroy] for the destroy worker); a sink whose
    filter rejects is left as it was. *)
Theorem fanout_filtering (p : pipeline.Pipeline (S := S)) (ae : Event) (ch : chan Event) :
  (recv (pipeline.acctUpdateChan p) = Ret (Some ae, ch) ->
   exists p' calls,
     pipeline.acctUpdateWorker_iter EventLength p = Ret (true, p') /\
     pipeline.effects p'
       = pipeline.effects p ++ map (fun i => pipeline.PushCall i ae) calls /\
     NoDup calls /\
     forall i s, pipeline.acctSinks p !! i = Some s ->
       (i ∈ calls <-> sinks.WantUpdate s = true) /\
       pipeline.acctSinks p' !! i
         = Some (if sinks.WantUpdate s then sinks.Push ae s else s)) /\
  (recv (pipeline.acctDestroyChan p) = Ret (Some ae, ch) ->
   exists p' calls,
     pipeline.acctDestroyWorker_iter EventLength p = Ret (true, p') /\
     pipeline.effects p'
       = pipeline.effects p ++ map (fun i => pipeline.PushCall i ae) calls /\
     NoDup calls /\
     forall i s, pipeline.acctSinks p !! i = Some s ->
       (i ∈ calls <-> sinks.WantDestroy s = true) /\
       pipeline.acctSinks p' !! i
         = Some (if sinks.WantDestroy s then sinks.Push ae s else s)).
Proof.
  split; intros Hrecv;
    unfold pipeline.acctUpdateWorker_iter, pipeline.acctDestroyWorker_iter;
    rewrite Hrecv; cbn -[pipeline.exec_ops pipeline.fanout].
  - destruct (fanout_spec sinks.WantUpdate ae (pipeline.acctSinks p) 0)
      as (_ & Hat & _ & Hnd).
    destruct (pipeline.fanout sinks.WantUpdate ae 0 (pipeline.acctSinks p))
      as [ss calls].
    exists (pipeline.emit (map (fun i => pipeline.PushCall i ae) calls)
              (pipeline.set_acctSinks ss
                 (pipeline.set_stats
                    (pipeline.exec_ops EventLength
                       (pipeline.update_stat_ops (Z.of_nat (length (buf ch))))
                       (pipeline.stats p))
                    (pipeline.set_acctUpdateChan (Some ch) p)))), calls.
    split; [reflexivity | split; [reflexivity | split; [exact Hnd |]]].
    intros i s Hi. destruct (Hat i s Hi) as [Hs Hiff]. split; [exact Hiff | exact Hs].
  - destruct (fanout_spec sinks.WantDestroy ae (pipeline.acctSinks p) 0)
      as (_ & Hat & _ & Hnd).
    destruct (pipeline.fanout sinks.WantDestroy ae 0 (pipeline.acctSinks p))
      as [ss calls].
    exists (pipeline.emit (map (fun i => pipeline.PushCall i ae) calls)
              (pipeline.set_acctSinks ss
                 (pipeline.set_stats
                    (pipeline.exec_ops EventLength
                       (pipeline.destroy_stat_ops (Z.of_nat (length (buf ch))))
                       (pipeline.stats p))
                    (pipeline.set_acctDestroyChan (Some ch) p)))), calls.
    split; [reflexivity | split; [reflexivity | split; [exact Hnd |]]].
    intros i s Hi. destruct (Hat i s Hi) as [Hs Hiff]. split; [exact Hiff | exact Hs].
Qed.

End Fanout.

(** Scenario S3 on the update channel: both sinks are pushed the update.
    On the destroy channel: only sink B is, sink A is left as it was. *)
Lemma fanout_filtering_witness :
  (exists p' (calls : list nat),
     pipeline.acctUpdateWorker_iter 92 pipeline_S3 = Ret (true, p') /\
     0%nat ∈ calls /\
     pipeline.acctSinks p' !! 0%nat = Some (sinks.Push (event_at 1 7 0) sink_A)) /\
  (exists p' (calls : list nat),
     pipeline.acctDestroyWorker_iter 92 pipeline_S3 = Ret (true, p') /\
     (0%nat ∉ calls) /\
     pipeline.acctSinks p' !! 0%nat = Some sink_A /\
     1%nat ∈ calls).
Proof.
  destruct (fanout_filtering 92 pipeline_S3 (event_at 1 7 0) (mkChan [] 1024 false))
    as [Hu _].
  destruct (fanout_filtering 92 pipeline_S3 (event_at 1 7 10) (mkChan [] 1024 false))
    as [_ Hd].
  split.
  - destruct (Hu eq_refl) as (p' & calls & Hr & _ & _ & Hat).
    exists p', calls. split; [exact Hr |].
    destruct (Hat 0%nat sink_A eq_refl) as [H0 H0'].
    split; [apply H0; reflexivity | exact H0'].
  - destruct (Hd eq_refl) as (p' & calls & Hr & _ & _ & Hat).
    exists p', calls. split; [exact Hr |].
    destruct (Hat 0%nat sink_A eq_refl) as [H0 H0'].
    split; [intros Hin; apply H0 in Hin; discriminate |].
    split; [exact H0' |]. apply (Hat 1%nat sink_B eq_refl). reflexivity.
Defined.

(** Scenario S3 run through: after one iteration of each worker sink A
    has received the update only and sink B both events. *)
Example fanout_S3 :
  exists p1 p2,
    pipeline.acctUpdateWorker_iter 92 pipeline_S3 = Ret (true, p1) /\
    pipeline.acctDestroyWorker_iter 92 p1 = Ret (true, p2) /\
    c_received <$> pipeline.acctSinks p2
      = [[event_at 1 7 0]; [event_at 1 7 0; event_at 1 7 10]] /\
    pipeline.effects p2
      = [pipeline.PushCall 0 (event_at 1 7 0); pipeline.PushCall 1 (event_at 1 7 0);
         pipeline.PushCall 1 (event_at 1 7 10)] /\
    pipeline.stats p2 = pipeline.mkStats 2 184 1 92 1 92 0 0.
Proof. do 2 eexists. repeat split; reflexivity. Qed.

(** ** The InfluxDB sink: batching *)

Section InfluxBatching.

Variable NewUDPClient : string -> N -> error + influxdb.Client.
Variable Estimate : Z.
Variable NewPoint :
  string -> gmap string Z -> gmap string Z -> Z -> error + influxdb.Point.

Implicit Types (s : influxdb.InfluxAcctSink) (sc : influxdb.AcctSinkConfig).

(** A successful [Init] installs the configured watermark, or 128 for 0,
    an empty batch and an empty send channel of capacity 64. *)
Lemma Init_establishes s sc s' :
  influxdb.Init NewUDPClient Estimate s sc = (None, s') ->
  influxdb.BatchWatermark (influxdb.config s')
    = (if (influxdb.BatchWatermark sc =? 0)%N then 128%N
       else influxdb.BatchWatermark sc) /\
  influxdb.batch s' = Some [] /\
  influxdb.sendChan s' = Some (make_chan 64) /\
  sink_inv s'.
Proof.
  unfold influxdb.Init.
  destruct (String.eqb (influxdb.Name sc) EmptyString); [discriminate |].
  destruct (NewUDPClient _ _) as [err | c]; [discriminate |].
  intros [= <-]. cbn.
  assert (Hwm : (0 < influxdb.BatchWatermark
                    (if (influxdb.BatchWatermark sc =? 0)%N
                     then influxdb.mkConfig (influxdb.Name sc) (influxdb.Addr sc)
                            influxdb.defaultBatchWatermark
                            (influxdb.UDPPayloadSize sc) (influxdb.EnableSrcPort sc)
                     else sc))%N).
  { destruct (N.eqb_spec (influxdb.BatchWatermark sc) 0); cbn; [reflexivity | lia]. }
  split; [destruct (influxdb.BatchWatermark sc =? 0)%N; reflexivity |].
  split; [reflexivity | split; [reflexivity |]].
  split; [reflexivity | split].
  - exists []. split; [reflexivity | exact Hwm].
  - exists (make_chan 64). cbn. unfold influxdb.sendChanCap. repeat split; lia.
Qed.

(** A point the client rejects makes [Push] panic, whatever the sink. *)
Lemma Push_rejected s (e : Event) (err : error) :
  influxdb.new_point NewPoint s e = inl err -> influxdb.Push NewPoint s e = Panic.
Proof. intros Hpt. unfold influxdb.Push. rewrite Hpt. reflexivity. Qed.

(** A [Push] that returns was given its point by the client. *)
Lemma Push_returned_point s (e : Event) s' :
  influxdb.Push NewPoint s e = Ret s' ->
  exists pt, influxdb.new_point NewPoint s e = inr pt.
Proof.
  unfold influxdb.Push.
  destruct (influxdb.new_point NewPoint s e) as [err | pt]; [discriminate | eauto].
Qed.

(** What [Push] does on an initialized sink with the point the client
    built, by cases on the length the batch reaches and on the room left
    in the send channel. *)
Lemma Push_cases s (e : Event) (pt : influxdb.Point) (b : influxdb.Batch)
  (q : chan influxdb.Batch) :
  sink_inv s -> influxdb.new_point NewPoint s e = inr pt ->
  influxdb.batch s = Some b -> influxdb.sendChan s = Some q ->
  ((N.of_nat (length (b ++ [pt])) < influxdb.BatchWatermark (influxdb.config s))%N ->
   exists s', influxdb.Push NewPoint s e = Ret s' /\
              influxdb.batch s' = Some (b ++ [pt]) /\
              influxdb.sendChan s' = Some q /\
              influxdb.config s' = influxdb.config s /\ sink_inv s') /\
  ((influxdb.BatchWatermark (influxdb.config s) <= N.of_nat (length (b ++ [pt])))%N ->
   (length (buf q) < 64)%nat ->
   exists s', influxdb.Push NewPoint s e = Ret s' /\
              influxdb.batch s' = Some [] /\
              influxdb.sendChan s' = Some (mkChan (buf q ++ [b ++ [pt]]) 64 false) /\
              influxdb.config s' = influxdb.config s /\ sink_inv s') /\
  ((influxdb.BatchWatermark (influxdb.config s) <= N.of_nat (length (b ++ [pt])))%N ->
   (64 <= length (buf q))%nat ->
   influxdb.Push NewPoint s e = Blocked).
Proof.
  intros (Hinit & (b0 & Hb0 & Hlt) & (q0 & Hq0 & Hopen & Hcap & Hroom)) Hpt Hb Hq.
  rewrite Hb in Hb0. injection Hb0 as <-. rewrite Hq in Hq0. injection Hq0 as <-.
  unfold influxdb.sendChanCap in Hcap.
  unfold influxdb.Push. rewrite Hpt, Hb. cbn [influxdb.config influxdb.set_stats
    influxdb.set_batch influxdb.sendChan].
  set (b' := b ++ [pt]) in *.
  set (wm := influxdb.BatchWatermark (influxdb.config s)) in *.
  split; [| split].
  - intros Hbelow. destruct (N.leb_spec wm (N.of_nat (length b'))) as [? | _]; [lia |].
    eexists. split; [reflexivity |]. cbn. split; [reflexivity |].
    split; [exact Hq | split; [reflexivity |]].
    split; [exact Hinit | split].
    + exists b'. split; [reflexivity | exact Hbelow].
    + exists q. cbn. rewrite Hq. unfold influxdb.sendChanCap. auto.
  - intros Hreach Hfree.
    destruct (N.leb_spec wm (N.of_nat (length b'))) as [_ | ?]; [| lia].
    unfold send. rewrite Hq, Hopen, Hcap.
    destruct (Nat.ltb_spec (length (buf q)) 64) as [_ | ?]; [| lia].
    eexists. split; [reflexivity |]. cbn. split; [reflexivity |].
    split; [reflexivity | split; [reflexivity |]].
    split; [exact Hinit | split].
    + exists []. split; [reflexivity |]. cbn. fold wm. lia.
    + eexists. split; [reflexivity |]. cbn. unfold influxdb.sendChanCap.
      rewrite length_app. cbn. split; [reflexivity | split; [reflexivity | lia]].
  - intros Hreach Hfull.
    destruct (N.leb_spec wm (N.of_nat (length b'))) as [_ | ?]; [| lia].
    unfold send. rewrite Hq, Hopen, Hcap.
    destruct (Nat.ltb_spec (length (buf q)) 64) as [? | _]; [lia |]. reflexivity.
Qed.

(** C7, as amended.  The InfluxDB sink.  A successful [Init] installs the
    configured watermark, 128 when it is configured as 0, an empty batch
    and a send channel of capacity 64.  On an initialized sink, [Push]
    panics when the client rejects the point; when the client builds the
    point, [Push] appends exactly that one point to the current batch, and
    when the batch thereby reaches the watermark, the full batch is put on
    the send channel and an empty batch installed (the call waiting while
    the channel holds 64 batches), and otherwise the longer batch stays
    current.  Whenever [Push] returns, the client built the point and the
    current batch is strictly shorter than the watermark. *)
Theorem InfluxAcctSink_batching :
  (forall s0 sc s,
     influxdb.Init NewUDPClient Estimate s0 sc = (None, s) ->
     influxdb.BatchWatermark (influxdb.config s)
       = (if (influxdb.BatchWatermark sc =? 0)%N then 128%N
          else influxdb.BatchWatermark sc) /\
     influxdb.batch s = Some [] /\
     influxdb.sendChan s = Some (make_chan 64) /\
     sink_inv s) /\
  (forall s (e : Event) (b : influxdb.Batch) (q : chan influxdb.Batch),
     sink_inv s -> influxdb.batch s = Some b -> influxdb.sendChan s = Some q ->
     (forall err, influxdb.new_point NewPoint s e = inl err ->
        influxdb.Push NewPoint s e = Panic) /\
     (forall pt, influxdb.new_point NewPoint s e = inr pt ->
        ((N.of_nat (length b) + 1 < influxdb.BatchWatermark (influxdb.config s))%N ->
         exists s', influxdb.Push NewPoint s e = Ret s' /\
                    influxdb.batch s' = Some (b ++ [pt]) /\
                    influxdb.sendChan s' = Some q) /\
        ((influxdb.BatchWatermark (influxdb.config s) <= N.of_nat (length b) + 1)%N ->
         ((length (buf q) < 64)%nat ->
          exists s', influxdb.Push NewPoint s e = Ret s' /\
                     influxdb.batch s' = Some [] /\
                     influxdb.sendChan s'
                       = Some (mkChan (buf q ++ [b ++ [pt]]) 64 false)) /\
         ((64 <= length (buf q))%nat -> influxdb.Push NewPoint s e = Blocked))) /\
     (forall s', influxdb.Push NewPoint s e = Ret s' ->
        (exists pt, influxdb.new_point NewPoint s e = inr pt) /\
        (influxdb.batch_len s'
           < influxdb.BatchWatermark (influxdb.config s'))%N /\
        influxdb.config s' = influxdb.config s /\
        sink_inv s')).
Proof.
  split; [intros s0 sc s; apply Init_establishes |].
  intros s e b q Hinv Hb Hq.
  split; [intros err; apply Push_rejected | split].
  - intros pt Hpt.
    destruct (Push_cases s e pt b q Hinv Hpt Hb Hq) as (Hbelow & Hreach & Hfull).
    assert (Hlen : N.of_nat (length (b ++ [pt])) = (N.of_nat (length b) + 1)%N).
    { rewrite length_app. cbn. lia. }
    rewrite Hlen in *.
    split.
    + intros H. destruct (Hbelow H) as (s' & Hr & Hb' & Hq' & _). eauto.
    + intros H. split.
      * intros Hfree. destruct (Hreach H Hfree) as (s' & Hr & Hb' & Hq' & _). eauto.
      * intros Hf. exact (Hfull H Hf).
  - intros s' Hr.
    destruct (Push_returned_point s e s' Hr) as [pt Hpt].
    split; [exists pt; exact Hpt |].
    destruct (Push_cases s e pt b q Hinv Hpt Hb Hq) as (Hbelow & Hreach & Hfull).
    assert (Hlen : N.of_nat (length (b ++ [pt])) = (N.of_nat (length b) + 1)%N).
    { rewrite length_app. cbn. lia. }
    rewrite Hlen in *.
    destruct (N.lt_ge_cases (N.of_nat (length b) + 1)
                (influxdb.BatchWatermark (influxdb.config s))) as [H | H].
    + destruct (Hbelow H) as (s'' & Hr' & Hb' & _ & Hc & Hinv').
      rewrite Hr in Hr'. injection Hr' as <-.
      split; [| split; [exact Hc | exact Hinv']].
      unfold influxdb.batch_len. rewrite Hb', Hc, Hlen. exact H.
    + destruct (Nat.lt_ge_cases (length (buf q)) 64) as [Hfree | Hf].
      * destruct (Hreach H Hfree) as (s'' & Hr' & Hb' & _ & Hc & Hinv').
        rewrite Hr in Hr'. injection Hr' as <-.
        split; [| split; [exact Hc | exact Hinv']].
        destruct Hinv as (_ & (b0 & _ & Hpos) & _).
        unfold influxdb.batch_len. rewrite Hb', Hc. cbn. lia.
      * rewrite (Hfull H Hf) in Hr. discriminate.
Qed.

(** The tick worker and the send worker keep the sink initialized. *)
Lemma tick_keeps_inv s s' :
  sink_inv s -> influxdb.tick s = Ret s' ->
  sink_inv s' /\ influxdb.config s' = influxdb.config s.
Proof.
  intros (Hinit & (b & Hb & Hlt) & (q & Hq & Hopen & Hcap & Hroom)).
  unfold influxdb.tick. rewrite Hb. destruct b as [| pt b].
  { intros [= <-]. split; [| reflexivity].
    split; [exact Hinit | split; [exists [] | exists q]; auto]. }
  unfold send. rewrite Hq, Hopen.
  destruct (Nat.ltb_spec (length (buf q)) (cap q)) as [Hfree | _]; [| discriminate].
  cbn. intros [= <-]. split; [| reflexivity].
  split; [exact Hinit | split].
  - exists []. split; [reflexivity |]. cbn in *. lia.
  - eexists. split; [reflexivity |]. cbn. rewrite length_app. cbn.
    split; [reflexivity | split; [exact Hcap | lia]].
Qed.

Lemma sendWorker_recv_keeps_inv s s' (r : option influxdb.Batch) :
  sink_inv s -> influxdb.sendWorker_recv s = Ret (r, s') ->
  sink_inv s' /\ influxdb.config s' = influxdb.config s.
Proof.
  intros (Hinit & (b & Hb & Hlt) & (q & Hq & Hopen & Hcap & Hroom)).
  unfold influxdb.sendWorker_recv, recv. rewrite Hq, Hopen.
  destruct (buf q) as [| x rest] eqn:Hbuf; [discriminate |].
  cbn. intros [= _ <-]. split; [| reflexivity].
  split; [exact Hinit | split].
  - exists b. auto.
  - eexists. split; [reflexivity |]. cbn. cbn in Hroom.
    split; [reflexivity | split; [exact Hcap | lia]].
Qed.

(** [Push] on a sink that was never initialized faults. *)
Lemma Push_uninitialized (e : Event) : influxdb.Push NewPoint influxdb.New e = Panic.
Proof.
  unfold influxdb.Push. destruct (influxdb.new_point NewPoint influxdb.New e); reflexivity.
Qed.

End InfluxBatching.

(** The sink [Init] yields for the default configuration is initialized
    and its send channel is empty. *)
Lemma sink_default_inv : sink_inv (sink_of config_default).
Proof.
  split; [reflexivity | split].
  - exists []. split; [reflexivity | vm_compute; reflexivity].
  - exists (make_chan 64). cbn. unfold influxdb.sendChanCap. repeat split; lia.
Qed.

(** C7, as the claim states it, fails: the sink is initialized, its batch
    is empty and its send channel has room, yet [Push] of an event whose
    timestamp puts the point's time beyond the range the client supports
    does not return with the point appended; it panics. *)
Lemma InfluxAcctSink_batching_counterexample :
  sink_inv (sink_of config_default) /\
  influxdb.batch (sink_of config_default) = Some [] /\
  queued (sink_of config_default) = [] /\
  influxdb.Push NewPoint_client (sink_of config_default) event_late = Panic /\
  ~ (exists s', influxdb.Push NewPoint_client (sink_of config_default) event_late
                = Ret s').
Proof.
  split; [exact sink_default_inv | split; [reflexivity | split; [reflexivity |]]].
  assert (Hp : influxdb.Push NewPoint_client (sink_of config_default) event_late = Panic)
    by (vm_compute; reflexivity).
  split; [exact Hp |]. intros [s' Hr]. rewrite Hp in Hr. discriminate.
Qed.

Lemma InfluxAcctSink_batching_witness :
  influxdb.BatchWatermark (influxdb.config (sink_of config_default)) = 128%N /\
  influxdb.BatchWatermark (influxdb.config (sink_of config_wm3)) = 3%N /\
  influxdb.Push NewPoint_client (sink_of config_default) event_late = Panic /\
  exists pt s',
    influxdb.new_point NewPoint_client (sink_of config_default) (event_at 1 7 0)
      = inr pt /\
    influxdb.Push NewPoint_client (sink_of config_default) (event_at 1 7 0) = Ret s' /\
    influxdb.batch s' = Some [pt] /\
    (influxdb.batch_len s' < 128)%N.
Proof.
  destruct (InfluxAcctSink_batching NewUDPClient_ok 0 NewPoint_client) as [HInit HPush].
  destruct (HInit influxdb.New config_default (sink_of config_default) eq_refl)
    as (Hwm & Hb & Hq & Hinv).
  destruct (HInit influxdb.New config_wm3 (sink_of config_wm3) eq_refl)
    as (Hwm3 & _).
  split; [exact Hwm | split; [exact Hwm3 |]].
  destruct (HPush (sink_of config_default) event_late [] (make_chan 64) Hinv Hb Hq)
    as (Hrej & _ & _).
  split; [apply (Hrej (errExternal "time outside range supported")); reflexivity |].
  destruct (HPush (sink_of config_default) (event_at 1 7 0) [] (make_chan 64)
              Hinv Hb Hq) as (_ & Hacc & Hafter).
  eexists.
  destruct (Hacc _ eq_refl) as (Hbelow & _).
  destruct Hbelow as (s' & Hr & Hb' & _).
  { rewrite Hwm. cbn. lia. }
  exists s'. split; [reflexivity | split; [exact Hr | split; [exact Hb' |]]].
  destruct (Hafter s' Hr) as (_ & Hlt & Hc & _). rewrite Hc, Hwm in Hlt. exact Hlt.
Defined.

(** Scenario S5: a sink with watermark 3 is pushed 7 events; two full
    batches of 3 are on the send channel and one event is in the current
    batch; a tick then flushes that batch too. *)
Example batching_S5 :
  match Push_all NewPoint_client (sink_of config_wm3)
          (map (event_at 1 7) [0; 1; 2; 3; 4; 5; 6]) with
  | Ret s =>
      queued_lengths s = [3%nat; 3%nat] /\
      influxdb.batch_len s = 1%N /\
      match influxdb.tick s with
      | Ret s' =>
          queued_lengths s' = [3%nat; 3%nat; 1%nat] /\ influxdb.batch_len s' = 0%N
      | _ => False
      end
  | _ => False
  end.
Proof. vm_compute. repeat split. Qed.

(** * Further properties of the code *)

(** ** The consumer registry: lookups and round trips *)

Section RegistryLookups.

Implicit Types (ap : bpf.Probe) (c : bpf.Consumer) (l : list bpf.Consumer).

Lemma range_name_returns n i l :
  exists r, bpf.range_name n i (Some <$> l) = Ret r.
Proof.
  revert i. induction l as [| c l IH]; intros i; cbn; [eauto |].
  destruct (String.eqb (bpf.name c) n); [eauto | apply IH].
Qed.

Lemma names_inj l c1 c2 :
  NoDup (bpf.name <$> l) -> c1 ∈ l -> c2 ∈ l -> bpf.name c1 = bpf.name c2 -> c1 = c2.
Proof.
  intros Hnd H1 H2 Hn.
  apply list_elem_of_lookup in H1 as [i Hi]. apply list_elem_of_lookup in H2 as [j Hj].
  assert (i = j).
  { eapply NoDup_lookup; [exact Hnd | |]; rewrite list_lookup_fmap.
    - rewrite Hi. reflexivity.
    - rewrite Hj, Hn. reflexivity. }
  subst j. congruence.
Qed.

(** [GetConsumer] on a valid registry, characterized by membership. *)
Lemma GetConsumer_char ap (n : string) :
  valid_registry ap ->
  (exists r, bpf.GetConsumer ap n = Ret r) /\
  (forall c, bpf.GetConsumer ap n = Ret (Some c) <->
             c ∈ registry ap /\ bpf.name c = n) /\
  (bpf.GetConsumer ap n = Ret None <->
   forall c, c ∈ registry ap -> bpf.name c <> n).
Proof.
  intros (Hwf & Hvis & Hnd). unfold bpf.GetConsumer. rewrite Hvis.
  destruct (bpf.range_name n 0 (Some <$> registry ap)) as [[[j c'] |] | |] eqn:Hr.
  - apply range_name_found in Hr as (_ & Hj & Hn). rewrite Nat.sub_0_r in Hj.
    apply list_elem_of_lookup_2 in Hj. cbn.
    split; [eauto | split].
    + intros c. split.
      * intros [= <-]. auto.
      * intros [Hin Hc]. f_equal. f_equal.
        apply (names_inj _ _ _ Hnd Hj Hin). congruence.
    + split; [discriminate |]. intros Habs. exfalso. exact (Habs c' Hj Hn).
  - cbn. split; [eauto | split].
    + intros c. split; [discriminate |]. intros [Hin Hc].
      destruct (range_name_present n 0 _ _ Hin Hc) as (j & c' & Hr' & _). congruence.
    + split; [| reflexivity]. intros _ c Hin Hc.
      destruct (range_name_present n 0 _ _ Hin Hc) as (j & c' & Hr' & _). congruence.
  - destruct (range_name_returns n 0 (registry ap)) as [r Hr']. congruence.
  - destruct (range_name_returns n 0 (registry ap)) as [r Hr']. congruence.
Qed.

(** X1. On a valid registry [GetConsumer] never faults; it returns a
    consumer exactly when that consumer is registered under the name
    asked for, and nil exactly when no registered consumer has the name. *)
Theorem GetConsumer_spec ap (n : string) :
  valid_registry ap ->
  (exists r, bpf.GetConsumer ap n = Ret r) /\
  (forall c, bpf.GetConsumer ap n = Ret (Some c) <->
             c ∈ registry ap /\ bpf.name c = n) /\
  (bpf.GetConsumer ap n = Ret None <->
   forall c, c ∈ registry ap -> bpf.name c <> n).
Proof.
  intros Hv. destruct (GetConsumer_char ap n Hv) as ([r Hr] & Hsome & Hnone).
  split; [exists r; exact Hr | split].
  - intros c. split.
    + intros Hc. apply (proj1 (Hsome c)). exact Hc.
    + intros Hc. apply (proj2 (Hsome c)). exact Hc.
  - exact Hnone.
Qed.

Lemma GetConsumer_spec_witness :
  bpf.GetConsumer probe3 "b" = Ret (Some (bpf.NewConsumer "b" 1 2)) /\
  bpf.GetConsumer probe3 "z" = Ret None.
Proof.
  destruct (GetConsumer_spec probe3 "b" probe3_valid) as (_ & Hb & _).
  destruct (GetConsumer_spec probe3 "z" probe3_valid) as (_ & _ & Hz).
  split.
  - apply Hb. split; [| reflexivity]. cbn. right. left.
  - apply Hz. intros c Hc. cbn in Hc. rewrite !elem_of_cons in Hc.
    destruct Hc as [-> | [-> | [-> | Hc]]]; [discriminate .. | inversion Hc].
Defined.

(** Two valid registries holding the same consumers of a name answer a
    lookup of that name alike. *)
Lemma GetConsumer_same ap1 ap2 (n : string) :
  valid_registry ap1 -> valid_registry ap2 ->
  (forall c, bpf.name c = n -> (c ∈ registry ap1 <-> c ∈ registry ap2)) ->
  bpf.GetConsumer ap1 n = bpf.GetConsumer ap2 n.
Proof.
  intros Hv1 Hv2 Hsame.
  destruct (GetConsumer_char ap1 n Hv1) as ([r1 Hr1] & Hs1 & Hn1).
  destruct (GetConsumer_char ap2 n Hv2) as (_ & Hs2 & Hn2).
  rewrite Hr1. symmetry. destruct r1 as [c |].
  - apply Hs2. apply Hs1 in Hr1 as [Hin Hc]. split; [apply Hsame |]; assumption.
  - apply Hn2. intros c Hin Hc. apply (proj1 Hn1 Hr1 c); [| exact Hc].
    apply Hsame; assumption.
Qed.

(** What a successful [RegisterConsumer] did. *)
Lemma RegisterConsumer_success ap c ap' :
  valid_registry ap ->
  bpf.RegisterConsumer ap (Some c) = Ret (None, ap') ->
  (forall c', c' ∈ registry ap -> bpf.name c' <> bpf.name c) /\
  ap' = bpf.set_consumers (slice.append (bpf.consumers ap) (Some c)) ap /\
  registry ap' = registry ap ++ [c] /\
  valid_registry ap'.
Proof.
  intros (Hwf & Hvis & Hnd). unfold bpf.RegisterConsumer. rewrite Hvis.
  destruct (bpf.range_name (bpf.name c) 0 (Some <$> registry ap))
    as [[[j c'] |] | |] eqn:Hr; cbn; try discriminate.
  intros [= <-].
  assert (Habs : forall c', c' ∈ registry ap -> bpf.name c' <> bpf.name c).
  { intros c' Hin Hc.
    destruct (range_name_present _ 0 _ _ Hin Hc) as (j & c'' & Hr' & _). congruence. }
  destruct (append_visible (bpf.consumers ap) (Some c) Hwf) as [Happ Hwf'].
  assert (Hvis' : slice.visible (slice.append (bpf.consumers ap) (Some c))
                  = Some <$> (registry ap ++ [c])).
  { rewrite Happ, Hvis, fmap_app. reflexivity. }
  assert (Hreg : registry (bpf.set_consumers
                   (slice.append (bpf.consumers ap) (Some c)) ap)
                 = registry ap ++ [c]).
  { apply registry_of_visible. exact Hvis'. }
  split; [exact Habs | split; [reflexivity | split; [exact Hreg |]]].
  split; [exact Hwf' | split].
  - rewrite Hreg. exact Hvis'.
  - rewrite Hreg, fmap_app. apply NoDup_app. split; [exact Hnd | split].
    + intros n Hn1 Hn2. apply list_elem_of_fmap in Hn1 as (c' & -> & Hc').
      cbn in Hn2. apply list_elem_of_singleton in Hn2. exact (Habs c' Hc' Hn2).
    + cbn. apply NoDup_singleton.
Qed.

(** X2. Register, then look up: after a successful [RegisterConsumer],
    [GetConsumer] of the new name returns the consumer just registered,
    and a lookup of any other name answers as before. *)
Theorem Register_then_Get ap c ap' :
  valid_registry ap ->
  bpf.RegisterConsumer ap (Some c) = Ret (None, ap') ->
  bpf.GetConsumer ap' (bpf.name c) = Ret (Some c) /\
  forall n, n <> bpf.name c -> bpf.GetConsumer ap' n = bpf.GetConsumer ap n.
Proof.
  intros Hv Hr.
  destruct (RegisterConsumer_success ap c ap' Hv Hr) as (_ & _ & Hreg & Hv').
  split.
  - apply (GetConsumer_char ap' _ Hv'). rewrite Hreg. split; [| reflexivity].
    apply elem_of_app. right. left.
  - intros n Hn. apply GetConsumer_same; [exact Hv' | exact Hv |].
    intros c0 Hc0. rewrite Hreg, elem_of_app, list_elem_of_singleton.
    split; [intros [? | ->]; [assumption | congruence] | auto].
Qed.

Lemma Register_then_Get_witness :
  exists ap',
    bpf.RegisterConsumer probe3 (Some (bpf.NewConsumer "d" 3 1)) = Ret (None, ap') /\
    bpf.GetConsumer ap' "d" = Ret (Some (bpf.NewConsumer "d" 3 1)) /\
    bpf.GetConsumer ap' "a" = bpf.GetConsumer probe3 "a".
Proof.
  eexists. split; [reflexivity |].
  match goal with
  | |- bpf.GetConsumer ?q _ = _ /\ _ =>
      destruct (Register_then_Get probe3 (bpf.NewConsumer "d" 3 1) q probe3_valid eq_refl)
        as [Hd Ho]
  end.
  split; [exact Hd | apply Ho; discriminate].
Defined.

(** What a successful [RemoveConsumer] did: the consumer found at index
    [j] is overwritten with the last one, the last slot is set to nil and
    the slice shrunk by one, in the same backing array. *)
Lemma RemoveConsumer_success ap c ap' :
  valid_registry ap ->
  bpf.RemoveConsumer ap (Some c) = Ret (None, ap') ->
  exists j c' lastc,
    registry ap !! j = Some c' /\ bpf.name c' = bpf.name c /\
    (forall k c'', (k < j)%nat -> registry ap !! k = Some c'' ->
                   bpf.name c'' <> bpf.name c) /\
    registry ap !! (length (registry ap) - 1)%nat = Some lastc /\
    bpf.consumers ap'
      = slice.mk (<[(slice.len (bpf.consumers ap) - 1)%nat := None]>
                    (<[j := Some lastc]> (slice.arr (bpf.consumers ap))))
                 (slice.len (bpf.consumers ap) - 1) /\
    registry ap' = take (length (registry ap) - 1) (<[j := lastc]> (registry ap)) /\
    registry ap ≡ₚ c' :: registry ap' /\
    valid_registry ap'.
Proof.
  intros Hv Hrm. pose proof Hv as (Hwf & Hvis & Hnd).
  destruct (bpf.range_name (bpf.name c) 0 (Some <$> registry ap))
    as [[[j c'] |] | |] eqn:Hr;
    [| unfold bpf.RemoveConsumer in Hrm; rewrite Hvis, Hr in Hrm; discriminate ..].
  destruct (RemoveConsumer_found ap c j c' Hv Hr)
    as (ap'' & Hrm' & _ & _ & _ & Hperm & Hv').
  rewrite Hrm in Hrm'. injection Hrm' as <-.
  pose proof (valid_len _ Hv) as Hlen.
  apply range_name_found in Hr as Hf. destruct Hf as (_ & Hj & Hn).
  rewrite Nat.sub_0_r in Hj.
  assert (Hjlt : (j < length (registry ap))%nat) by (eapply lookup_lt_Some; exact Hj).
  destruct (lookup_lt_is_Some_2 (registry ap) (length (registry ap) - 1)%nat
              ltac:(lia)) as [lastc Hlast].
  unfold slice.wf in Hwf.
  assert (Hcs : bpf.consumers ap'
                = slice.mk (<[(slice.len (bpf.consumers ap) - 1)%nat := None]>
                              (<[j := Some lastc]> (slice.arr (bpf.consumers ap))))
                           (slice.len (bpf.consumers ap) - 1)).
  { unfold bpf.RemoveConsumer in Hrm. rewrite Hvis, Hr, bind_Ret in Hrm.
    rewrite (slice_get_ok _ (slice.len (bpf.consumers ap) - 1) (Some lastc)) in Hrm;
      [| lia |].
    2:{ rewrite (valid_lookup ap _ Hv) by lia. rewrite Hlen, Hlast. reflexivity. }
    rewrite bind_Ret, slice_set_ok, bind_Ret in Hrm by lia.
    rewrite slice_set_ok, bind_Ret in Hrm by (cbn; lia).
    rewrite slice_prefix_ok, bind_Ret in Hrm by (cbn; rewrite !length_insert; lia).
    cbn in Hrm. injection Hrm as <-. reflexivity. }
  assert (Hreg : registry ap'
                 = take (length (registry ap) - 1) (<[j := lastc]> (registry ap))).
  { destruct ap' as [cs' st']. cbn in Hcs. subst cs'.
    apply registry_of_visible. unfold slice.visible. cbn.
    rewrite take_insert_ge by lia.
    replace (slice.len (bpf.consumers ap) - 1)%nat
      with (Nat.min (slice.len (bpf.consumers ap) - 1) (slice.len (bpf.consumers ap)))
      at 1 by lia.
    rewrite <- take_take, take_insert_lt by lia.
    fold (slice.visible (bpf.consumers ap)). rewrite Hvis.
    rewrite <- list_fmap_insert, <- fmap_take, Hlen. reflexivity. }
  exists j, c', lastc.
  split; [exact Hj | split; [exact Hn | split]].
  - intros k c'' Hk Hk' Hc''.
    assert (Hin : c'' ∈ registry ap) by (eapply list_elem_of_lookup_2; exact Hk').
    assert (Hin' : c' ∈ registry ap) by (eapply list_elem_of_lookup_2; exact Hj).
    assert (c'' = c') by (apply (names_inj _ _ _ Hnd Hin Hin'); congruence).
    subst c''.
    assert (k = j); [| lia].
    eapply NoDup_lookup; [exact Hnd | |]; rewrite list_lookup_fmap.
    + rewrite Hk'. reflexivity.
    + rewrite Hj. reflexivity.
  - split; [exact Hlast | split; [exact Hcs | split; [exact Hreg |]]].
    split; [exact Hperm | exact Hv'].
Qed.

(** X3. A successful [RemoveConsumer] leaves every other name alone:
    a lookup of a name other than the removed one answers as before. *)
Theorem Remove_keeps_others ap c ap' :
  valid_registry ap ->
  bpf.RemoveConsumer ap (Some c) = Ret (None, ap') ->
  forall n, n <> bpf.name c -> bpf.GetConsumer ap' n = bpf.GetConsumer ap n.
Proof.
  intros Hv Hrm n Hn.
  destruct (RemoveConsumer_success ap c ap' Hv Hrm)
    as (j & c' & lastc & _ & Hc' & _ & _ & _ & _ & Hperm & Hv').
  apply GetConsumer_same; [exact Hv' | exact Hv |].
  intros c0 Hc0. rewrite Hperm, elem_of_cons.
  split; [auto | intros [-> | ?]; [congruence | assumption]].
Qed.

Lemma Remove_keeps_others_witness :
  exists ap',
    bpf.RemoveConsumer probe3 (Some (bpf.NewConsumer "a" 9 0)) = Ret (None, ap') /\
    bpf.GetConsumer ap' "c" = bpf.GetConsumer probe3 "c".
Proof.
  eexists. split; [reflexivity |].
  match goal with
  | |- bpf.GetConsumer ?q _ = _ =>
      apply (Remove_keeps_others probe3 (bpf.NewConsumer "a" 9 0) q probe3_valid eq_refl)
  end.
  discriminate.
Defined.

Lemma range_name_last n i l c :
  (forall c', c' ∈ l -> bpf.name c' <> n) -> bpf.name c = n ->
  bpf.range_name n i (Some <$> (l ++ [c])) = Ret (Some ((i + length l)%nat, c)).
Proof.
  revert i. induction l as [| c0 l IH]; intros i Hl Hc; cbn.
  - rewrite (proj2 (String.eqb_eq _ _) Hc), Nat.add_0_r. reflexivity.
  - destruct (String.eqb_spec (bpf.name c0) n) as [E | _].
    + exfalso. apply (Hl c0); [left | exact E].
    + rewrite IH; [| intros c' Hc'; apply Hl; right; exact Hc' | exact Hc].
      rewrite Nat.add_succ_r. reflexivity.
Qed.

(** X4. Register, then remove: removing a consumer right after it was
    registered succeeds and gives back the registry as it was before,
    same consumers in the same order. *)
Theorem Register_then_Remove ap c ap1 :
  valid_registry ap ->
  bpf.RegisterConsumer ap (Some c) = Ret (None, ap1) ->
  exists ap2,
    bpf.RemoveConsumer ap1 (Some c) = Ret (None, ap2) /\
    registry ap2 = registry ap /\
    slice.len (bpf.consumers ap2) = slice.len (bpf.consumers ap) /\
    valid_registry ap2.
Proof.
  intros Hv Hr.
  destruct (RegisterConsumer_success ap c ap1 Hv Hr) as (Habs & _ & Hreg & Hv1).
  assert (Hfind : bpf.range_name (bpf.name c) 0 (Some <$> registry ap1)
                  = Ret (Some (length (registry ap), c))).
  { rewrite Hreg. apply (range_name_last _ 0); [exact Habs | reflexivity]. }
  destruct (RemoveConsumer_found ap1 c _ c Hv1 Hfind) as (ap2 & Hrm & _ & _ & Hlen & _ & Hv2).
  exists ap2. split; [exact Hrm |].
  destruct (RemoveConsumer_success ap1 c ap2 Hv1 Hrm)
    as (j & c' & lastc & Hj & Hc' & _ & Hlast & _ & Hreg2 & _ & _).
  rewrite Hreg in Hj, Hlast, Hreg2. rewrite length_app in Hlast, Hreg2.
  cbn [length] in Hlast, Hreg2.
  replace (length (registry ap) + 1 - 1)%nat with (length (registry ap)) in * by lia.
  rewrite list_lookup_middle in Hlast by reflexivity. injection Hlast as <-.
  assert (Hjeq : j = length (registry ap)).
  { destruct (decide (j < length (registry ap))%nat) as [Hlt | Hge].
    - rewrite lookup_app_l in Hj by exact Hlt.
      exfalso. apply (Habs c'); [eapply list_elem_of_lookup_2; exact Hj | exact Hc'].
    - apply lookup_lt_Some in Hj. rewrite length_app in Hj. cbn in Hj. lia. }
  subst j.
  split; [| split; [| exact Hv2]].
  - rewrite Hreg2, list_insert_id by (apply list_lookup_middle; reflexivity).
    apply take_app_length.
  - rewrite (valid_len _ Hv1), Hreg, length_app in Hlen. cbn in Hlen.
    rewrite (valid_len _ Hv). rewrite (valid_len _ Hv2) in *. lia.
Qed.

Lemma Register_then_Remove_witness :
  exists ap1 ap2,
    bpf.RegisterConsumer probe3 (Some (bpf.NewConsumer "d" 3 1)) = Ret (None, ap1) /\
    bpf.RemoveConsumer ap1 (Some (bpf.NewConsumer "d" 3 1)) = Ret (None, ap2) /\
    registry ap2 = registry probe3.
Proof.
  eexists.
  match goal with
  | |- exists ap2, bpf.RegisterConsumer _ _ = Ret (None, ?q) /\ _ =>
      destruct (Register_then_Remove probe3 (bpf.NewConsumer "d" 3 1) q
                  probe3_valid eq_refl) as (ap2 & Hrm & Hreg & _)
  end.
  exists ap2. split; [reflexivity | split; [exact Hrm | exact Hreg]].
Defined.

Lemma append_in_place {A : Type} (cs : slice.t A) (x : option A) :
  (slice.len cs < length (slice.arr cs))%nat ->
  slice.append cs x = slice.mk (<[slice.len cs := x]> (slice.arr cs)) (S (slice.len cs)).
Proof.
  intros Hlt. unfold slice.append.
  destruct (Nat.ltb_spec (slice.len cs) (length (slice.arr cs))); [reflexivity | lia].
Qed.

(** X5. Remove, then register: [RemoveConsumer] keeps the backing array,
    and the next [RegisterConsumer] takes the slot it vacated, so the pair
    leaves length and capacity of the consumer slice as they were. *)
Theorem Remove_then_Register_reuses_slot ap c d ap1 ap2 :
  valid_registry ap ->
  bpf.RemoveConsumer ap (Some c) = Ret (None, ap1) ->
  bpf.RegisterConsumer ap1 (Some d) = Ret (None, ap2) ->
  length (slice.arr (bpf.consumers ap1)) = length (slice.arr (bpf.consumers ap)) /\
  length (slice.arr (bpf.consumers ap2)) = length (slice.arr (bpf.consumers ap)) /\
  slice.len (bpf.consumers ap2) = slice.len (bpf.consumers ap) /\
  slice.arr (bpf.consumers ap2) !! slice.len (bpf.consumers ap1) = Some (Some d).
Proof.
  intros Hv Hrm Hr. pose proof Hv as (Hwf & _). unfold slice.wf in Hwf.
  destruct (RemoveConsumer_success ap c ap1 Hv Hrm)
    as (j & c' & lastc & Hj & _ & _ & _ & Hcs & _ & _ & Hv1).
  apply lookup_lt_Some in Hj. rewrite <- (valid_len _ Hv) in Hj.
  destruct (RegisterConsumer_success ap1 d ap2 Hv1 Hr) as (_ & -> & _ & _).
  cbn [bpf.consumers bpf.set_consumers]. rewrite Hcs.
  rewrite append_in_place by (cbn; rewrite !length_insert; lia).
  cbn. rewrite !length_insert.
  split; [reflexivity | split; [reflexivity | split; [lia |]]].
  apply list_lookup_insert_eq. rewrite !length_insert. lia.
Qed.

Lemma Remove_then_Register_reuses_slot_witness :
  exists ap1 ap2,
    bpf.RemoveConsumer probe3 (Some (bpf.NewConsumer "b" 9 0)) = Ret (None, ap1) /\
    bpf.RegisterConsumer ap1 (Some (bpf.NewConsumer "d" 3 1)) = Ret (None, ap2) /\
    length (slice.arr (bpf.consumers ap2)) = 4%nat /\
    slice.len (bpf.consumers ap2) = 3%nat.
Proof.
  eexists. eexists. split; [reflexivity |]. split; [reflexivity |].
  match goal with
  | |- length (slice.arr (bpf.consumers ?q2)) = _ /\ _ =>
      destruct (Remove_then_Register_reuses_slot probe3 (bpf.NewConsumer "b" 9 0)
                  (bpf.NewConsumer "d" 3 1) _ q2 probe3_valid eq_refl eq_refl)
        as (_ & Hcap & Hlen & _)
  end.
  split; [exact Hcap | exact Hlen].
Defined.

(** On a valid registry a call returns, keeps the registry valid, and
    changes nothing when it returns an error. *)
Lemma run_call_valid ap (k : registry_call) :
  valid_registry ap ->
  exists err ap', run_call ap k = Ret (err, ap') /\ valid_registry ap' /\
                  (err <> None -> ap' = ap).
Proof.
  intros Hv. pose proof Hv as (Hwf & Hvis & Hnd).
  destruct k as [[c |] | [c |]]; cbn [run_call].
  - unfold bpf.RegisterConsumer. rewrite Hvis.
    destruct (range_name_returns (bpf.name c) 0 (registry ap)) as [r Hr].
    rewrite Hr. cbn. destruct r as [[j c'] |].
    + exists (Some errDupConsumer), ap. auto.
    + eexists None, _. split; [reflexivity |].
      destruct (RegisterConsumer_success ap c
                  (bpf.set_consumers (slice.append (bpf.consumers ap) (Some c)) ap) Hv)
        as (_ & _ & _ & Hv').
      { unfold bpf.RegisterConsumer. rewrite Hvis, Hr. reflexivity. }
      split; [exact Hv' | congruence].
  - exists (Some errConsumerNil), ap. auto.
  - destruct (range_name_returns (bpf.name c) 0 (registry ap)) as [r Hr].
    destruct r as [[j c'] |].
    + destruct (RemoveConsumer_found ap c j c' Hv Hr) as (ap' & Hrm & _ & _ & _ & _ & Hv').
      exists None, ap'. split; [exact Hrm | split; [exact Hv' | congruence]].
    + exists (Some errNoConsumer), ap. unfold bpf.RemoveConsumer.
      rewrite Hvis, Hr. auto.
  - exists (Some errConsumerNil), ap. auto.
Qed.

(** X6. The registry operations never fault on the states they produce:
    from a valid registry, any sequence of [RegisterConsumer] and
    [RemoveConsumer] calls, nil arguments included, runs to the end with
    one result per call and ends in a valid registry (no nil entry, names
    distinct, length within capacity). *)
Theorem registry_calls_never_fault ap (ks : list registry_call) :
  valid_registry ap ->
  exists errs ap', run_calls ap ks = Ret (errs, ap') /\
                   length errs = length ks /\ valid_registry ap'.
Proof.
  revert ap. induction ks as [| k ks IH]; intros ap Hv.
  - exists [], ap. auto.
  - destruct (run_call_valid ap k Hv) as (err & ap1 & Hk & Hv1 & _).
    destruct (IH ap1 Hv1) as (errs & ap' & Hks & Hlen & Hv').
    exists (err :: errs), ap'. cbn [run_calls]. rewrite Hk, Hks.
    split; [reflexivity | split; [cbn; f_equal; exact Hlen | exact Hv']].
Qed.

Lemma registry_calls_never_fault_witness :
  exists ap',
    run_calls empty_probe
      [CallRemove (Some (bpf.NewConsumer "a" 0 0));
       CallRegister (Some (bpf.NewConsumer "a" 0 0));
       CallRegister None;
       CallRegister (Some (bpf.NewConsumer "a" 1 2));
       CallRemove (Some (bpf.NewConsumer "a" 5 1))]
    = Ret ([Some errNoConsumer; None; Some errConsumerNil; Some errDupConsumer; None],
           ap') /\
    valid_registry ap'.
Proof.
  destruct (registry_calls_never_fault empty_probe
              [CallRemove (Some (bpf.NewConsumer "a" 0 0));
               CallRegister (Some (bpf.NewConsumer "a" 0 0));
               CallRegister None;
               CallRegister (Some (bpf.NewConsumer "a" 1 2));
               CallRemove (Some (bpf.NewConsumer "a" 5 1))] empty_probe_valid)
    as (errs & ap' & Hrun & _ & Hv).
  exists ap'. split; [| exact Hv].
  rewrite Hrun. cbv in Hrun. injection Hrun as <- <-. reflexivity.
Defined.

End RegistryLookups.

(** ** Consumer modes outside the two known bits *)

Lemma land_3_zero (m : Z) :
  Z.land m 3 = 0 <-> Z.testbit m 0 = false /\ Z.testbit m 1 = false.
Proof.
  split.
  - intros H. split.
    + rewrite <- (andb_true_r (Z.testbit m 0)).
      change true with (Z.testbit 3 0). rewrite <- Z.land_spec, H. apply Z.bits_0.
    + rewrite <- (andb_true_r (Z.testbit m 1)).
      change true with (Z.testbit 3 1). rewrite <- Z.land_spec, H. apply Z.bits_0.
  - intros [H0 H1]. apply Z.bits_inj'. intros n Hn.
    rewrite Z.land_spec, Z.bits_0.
    destruct (Z.eq_dec n 0) as [-> | N0]; [rewrite H0; reflexivity |].
    destruct (Z.eq_dec n 1) as [-> | N1]; [rewrite H1; reflexivity |].
    change 3 with (Z.ones 2). rewrite Z.ones_spec_high by lia. apply andb_false_r.
Qed.

(** X7. A consumer built by [NewConsumer] wants neither updates nor
    destroys exactly when its mode is nonzero and has neither of the two
    known bits set (4, 8, 12, ...): such a consumer registers without
    error and is never sent an event.  For every other mode it wants at
    least one kind. *)
Theorem NewConsumer_wants_nothing (n : string) (ch : nat) (m : bpf.ConsumerMode) :
  bpf.WantUpdate (bpf.NewConsumer n ch m) || bpf.WantDestroy (bpf.NewConsumer n ch m)
    = false
  <-> m <> 0 /\ Z.land m bpf.ConsumerAll = 0.
Proof.
  unfold bpf.WantUpdate, bpf.WantDestroy, bpf.NewConsumer. cbn [bpf.mode].
  unfold bpf.ConsumerUpdate, bpf.ConsumerDestroy.
  change bpf.ConsumerAll with 3.
  destruct (Z.eqb_spec m 0) as [-> | Hm].
  - cbn. split; [discriminate | intros [H _]; contradiction].
  - rewrite land_bit0, land_bit1, land_3_zero, orb_false_iff. tauto.
Qed.

(** With mode 4 a consumer wants nothing; with mode 5 it wants updates. *)
Example NewConsumer_mode_4_5 :
  bpf.WantUpdate (bpf.NewConsumer "x" 0 4) = false /\
  bpf.WantDestroy (bpf.NewConsumer "x" 0 4) = false /\
  bpf.WantUpdate (bpf.NewConsumer "x" 0 5) = true /\
  bpf.WantDestroy (bpf.NewConsumer "x" 0 5) = false.
Proof. repeat split. Qed.

(** ** The pipeline: [Init] and [Start] *)

Section PipelineGates.

Context {S : Type} `{!sinks.Sink S}.
Variable NewProbe : bpf.Config -> error + bpf.Probe.
Variable ProbeStart : bpf.Probe -> option error * bpf.Probe.

Implicit Types (p q : pipeline.Pipeline (S := S)).

(** X8. [Init] runs once: whatever a call to [Init] returned, every later
    call returns nil and changes nothing.  So after an [Init] that failed
    the pipeline stays without a probe, and [Start] keeps returning
    [errAcctNotInitialized]. *)
Theorem Init_runs_once p (r : option error) p1 :
  pipeline.Init NewProbe p = Ret (r, p1) ->
  pipeline.Init NewProbe p1 = Ret (None, p1) /\
  (pipeline.acctProbe p = None -> r <> None ->
   pipeline.Start ProbeStart p1 = (Some errAcctNotInitialized, p1)).
Proof.
  intros Hi.
  assert (Hgate : pipeline.init p1 = true).
  { unfold pipeline.Init in Hi. destruct (pipeline.init p) eqn:Hg.
    - injection Hi as _ <-. exact Hg.
    - destruct (pipeline.initAcct NewProbe p) as [[e p'] | |]; cbn in Hi;
        [| discriminate ..].
      injection Hi as _ <-. reflexivity. }
  split.
  - unfold pipeline.Init. rewrite Hgate. reflexivity.
  - intros Hp Hr. destruct r as [err |]; [| contradiction].
    pose proof (Init_failed_no_probe NewProbe p err p1 Hp Hi) as Hp1.
    unfold pipeline.Start. rewrite Hp1. reflexivity.
Qed.

(** A successful [Start]: what it leaves behind. *)
Lemma Start_effects p (r : option error) p1 :
  pipeline.Start ProbeStart p = (r, p1) ->
  (p1 = p /\ (pipeline.acctProbe p = None \/ pipeline.start p = true)) \/
  (pipeline.start p = false /\ pipeline.start p1 = true /\
   pipeline.acctProbe p <> None /\ pipeline.acctProbe p1 <> None /\
   pipeline.effects p1
     = pipeline.effects p
       ++ [pipeline.GoUpdateWorker; pipeline.GoDestroyWorker; pipeline.ProbeStartCall]).
Proof.
  unfold pipeline.Start, pipeline.startAcct.
  destruct (pipeline.acctProbe p) as [ap |] eqn:Hap.
  - destruct (pipeline.start p) eqn:Hst.
    + intros [= _ <-]. left. auto.
    + destruct (ProbeStart ap) as [[e |] ap']; intros [= _ <-]; right;
        (split; [reflexivity | split; [reflexivity | split; [discriminate |]]]);
        (split; [discriminate |]); cbn; rewrite <- app_assoc; reflexivity.
  - intros [= _ <-]. left. auto.
Qed.

(** X9. However often [Start] is called, the workers are launched and the
    probe is started at most once: after any number of calls the record
    of launches is either as it was or longer by exactly one launch of
    each worker followed by one probe start. *)
Theorem Start_launches_at_most_once p (n : nat) :
  let q := Nat.iter n (fun q => snd (pipeline.Start ProbeStart q)) p in
  pipeline.effects q = pipeline.effects p \/
  pipeline.effects q
    = pipeline.effects p
      ++ [pipeline.GoUpdateWorker; pipeline.GoDestroyWorker; pipeline.ProbeStartCall].
Proof.
  cbn zeta.
  assert (Hinv :
    let q := Nat.iter n (fun q => snd (pipeline.Start ProbeStart q)) p in
    pipeline.effects q = pipeline.effects p \/
    (pipeline.start q = true /\
     pipeline.effects q
       = pipeline.effects p
         ++ [pipeline.GoUpdateWorker; pipeline.GoDestroyWorker;
             pipeline.ProbeStartCall])).
  { induction n as [| n IH]; [left; reflexivity |].
    cbn zeta in *. rewrite Nat.iter_succ.
    set (q := Nat.iter n _ p) in *.
    destruct (pipeline.Start ProbeStart q) as [r q1] eqn:Hs. cbn [snd].
    destruct (Start_effects q r q1 Hs) as [[-> _] | (Hst & Hst1 & _ & _ & Heff)].
    - exact IH.
    - destruct IH as [IH | [IH _]]; [| congruence].
      right. split; [exact Hst1 |]. rewrite Heff, IH. reflexivity. }
  cbn zeta in Hinv. tauto.
Qed.


End PipelineGates.

Lemma Init_runs_once_witness :
  exists err p1,
    pipeline.Init NewProbe_fail (pipeline.New (S := collector)) = Ret (Some err, p1) /\
    pipeline.Init NewProbe_ok p1 = Ret (None, p1) /\
    pipeline.Start ProbeStart_ok p1 = (Some errAcctNotInitialized, p1).
Proof.
  eexists. eexists. split; [reflexivity |].
  match goal with
  | |- pipeline.Init _ ?q = _ /\ _ =>
      destruct (Init_runs_once NewProbe_fail ProbeStart_ok pipeline.New
                  (Some (Wrap (errExternal "loading probe") "initializing BPF probe"))
                  q eq_refl) as [_ Hstart]
  end.
  split; [reflexivity | apply Hstart; [reflexivity | discriminate]].
Defined.


(** ** The pipeline: what [Init] sets up *)

Lemma RegisterConsumer_fresh (ap : bpf.Probe) (c : bpf.Consumer) :
  valid_registry ap ->
  (forall c', c' ∈ registry ap -> bpf.name c' <> bpf.name c) ->
  exists ap', bpf.RegisterConsumer ap (Some c) = Ret (None, ap') /\
              registry ap' = registry ap ++ [c] /\ valid_registry ap'.
Proof.
  intros Hv Habs. pose proof Hv as (_ & Hvis & _).
  assert (Hr : bpf.RegisterConsumer ap (Some c)
               = Ret (None, bpf.set_consumers
                              (slice.append (bpf.consumers ap) (Some c)) ap)).
  { unfold bpf.RegisterConsumer. rewrite Hvis, (range_name_absent _ _ _ Habs).
    reflexivity. }
  destruct (RegisterConsumer_success ap c _ Hv Hr) as (_ & _ & Hreg & Hv').
  eauto.
Qed.

Lemma RegisterConsumer_taken (ap : bpf.Probe) (c c' : bpf.Consumer) :
  valid_registry ap -> c' ∈ registry ap -> bpf.name c' = bpf.name c ->
  bpf.RegisterConsumer ap (Some c) = Ret (Some errDupConsumer, ap).
Proof.
  intros (_ & Hvis & _) Hin Hn. unfold bpf.RegisterConsumer. rewrite Hvis.
  destruct (range_name_present (bpf.name c) 0 _ _ Hin Hn) as (j & c'' & Hr & _).
  rewrite Hr. reflexivity.
Qed.

Section PipelineInit.

Context {S : Type} `{!sinks.Sink S}.
Variable NewProbe : bpf.Config -> error + bpf.Probe.

Implicit Types (p : pipeline.Pipeline (S := S)).

(** X11. The first [Init], when the probe loads and holds no consumer
    named AcctUpdate or AcctDestroy, returns nil and leaves the pipeline
    with that probe, to which exactly the update-only consumer AcctUpdate
    and the destroy-only consumer AcctDestroy were appended in this order,
    and with two fresh open channels of capacity 1024; sinks, statistics
    and the start gate are as before. *)
Theorem Init_sets_up p (ap0 : bpf.Probe) :
  pipeline.init p = false ->
  NewProbe pipeline.acctConfig = inr ap0 ->
  valid_registry ap0 ->
  (forall c, c ∈ registry ap0 ->
     bpf.name c <> "AcctUpdate" /\ bpf.name c <> "AcctDestroy") ->
  exists p1 ap1,
    pipeline.Init NewProbe p = Ret (None, p1) /\
    pipeline.acctProbe p1 = Some ap1 /\
    registry ap1
      = registry ap0
        ++ [bpf.NewConsumer "AcctUpdate" pipeline.acctUpdateChanId bpf.ConsumerUpdate;
            bpf.NewConsumer "AcctDestroy" pipeline.acctDestroyChanId
              bpf.ConsumerDestroy] /\
    valid_registry ap1 /\
    pipeline.acctUpdateChan p1 = Some (mkChan [] 1024 false) /\
    pipeline.acctDestroyChan p1 = Some (mkChan [] 1024 false) /\
    pipeline.init p1 = true /\
    pipeline.start p1 = pipeline.start p /\
    pipeline.acctSinks p1 = pipeline.acctSinks p /\
    pipeline.stats p1 = pipeline.stats p.
Proof.
  intros Hgate Hnp Hv Hfree.
  set (au := bpf.NewConsumer "AcctUpdate" pipeline.acctUpdateChanId bpf.ConsumerUpdate).
  set (ad := bpf.NewConsumer "AcctDestroy" pipeline.acctDestroyChanId
               bpf.ConsumerDestroy).
  destruct (RegisterConsumer_fresh ap0 au Hv) as (apu & Hru & Hregu & Hvu).
  { intros c Hc. apply (Hfree c Hc). }
  destruct (RegisterConsumer_fresh apu ad Hvu) as (apd & Hrd & Hregd & Hvd).
  { intros c Hc. rewrite Hregu, elem_of_app, list_elem_of_singleton in Hc.
    destruct Hc as [Hc | ->]; [apply (Hfree c Hc) | discriminate]. }
  eexists. exists apd.
  split.
  { unfold pipeline.Init, pipeline.initAcct. rewrite Hgate, Hnp.
    fold au. rewrite Hru. cbn [mbind outcome_bind]. fold ad. rewrite Hrd.
    reflexivity. }
  cbn. rewrite Hregd, Hregu, <- app_assoc.
  repeat (split; [reflexivity || assumption |]). reflexivity.
Qed.

(** X12. How the first [Init] fails.  When the probe does not load, the
    error comes back wrapped and the pipeline is left as it was, save for
    the consumed gate.  When the probe already holds a consumer named
    AcctUpdate, the wrapped [errDupConsumer] comes back, the probe is not
    kept, and the pipeline is nevertheless left with the two channels just
    made. *)
Theorem Init_failures p :
  pipeline.init p = false ->
  (forall err, NewProbe pipeline.acctConfig = inl err ->
     pipeline.Init NewProbe p
       = Ret (Some (Wrap err "initializing BPF probe"), pipeline.set_init true p)) /\
  (forall ap0 c, NewProbe pipeline.acctConfig = inr ap0 ->
     valid_registry ap0 -> c ∈ registry ap0 -> bpf.name c = "AcctUpdate" ->
     exists p1,
       pipeline.Init NewProbe p
         = Ret (Some (Wrap errDupConsumer "registering update consumer to probe"), p1) /\
       pipeline.acctProbe p1 = pipeline.acctProbe p /\
       pipeline.acctUpdateChan p1 = Some (mkChan [] 1024 false) /\
       pipeline.acctDestroyChan p1 = Some (mkChan [] 1024 false) /\
       pipeline.init p1 = true).
Proof.
  intros Hgate. split.
  - intros err Hnp. unfold pipeline.Init, pipeline.initAcct.
    rewrite Hgate, Hnp. reflexivity.
  - intros ap0 c Hnp Hv Hin Hn. eexists. split.
    + unfold pipeline.Init, pipeline.initAcct. rewrite Hgate, Hnp.
      rewrite (RegisterConsumer_taken ap0
                 (bpf.NewConsumer "AcctUpdate" pipeline.acctUpdateChanId
                    bpf.ConsumerUpdate) c Hv Hin Hn).
      reflexivity.
    + cbn. auto.
Qed.

End PipelineInit.

Lemma Init_sets_up_witness :
  exists p1 ap1,
    pipeline.Init NewProbe_ok (pipeline.New (S := collector)) = Ret (None, p1) /\
    pipeline.acctProbe p1 = Some ap1 /\
    bpf.name <$> registry ap1 = ["AcctUpdate"; "AcctDestroy"] /\
    bpf.GetConsumer ap1 "AcctDestroy"
      = Ret (Some (bpf.NewConsumer "AcctDestroy" 1 bpf.ConsumerDestroy)).
Proof.
  destruct (Init_sets_up NewProbe_ok (pipeline.New (S := collector)) empty_probe
              eq_refl eq_refl
              empty_probe_valid) as (p1 & ap1 & Hi & Hp & Hreg & Hv & _).
  { intros c Hc. inversion Hc. }
  exists p1, ap1. split; [exact Hi | split; [exact Hp | split]].
  - rewrite Hreg. reflexivity.
  - apply (GetConsumer_char ap1 _ Hv). rewrite Hreg. split; [| reflexivity].
    right. left.
Defined.

Lemma Init_failures_witness :
  pipeline.Init NewProbe_fail (pipeline.New (S := collector))
  = Ret (Some (Wrap (errExternal "loading probe") "initializing BPF probe"),
         pipeline.set_init true pipeline.New).
Proof.
  destruct (Init_failures NewProbe_fail (pipeline.New (S := collector)) eq_refl)
    as [Hload _].
  apply Hload. reflexivity.
Defined.

(** ** The pipeline workers: draining a channel *)

Section WorkerDrain.

Context {S : Type} `{!sinks.Sink S}.
Variable EventLength : Z.

(** The fan-out loop treats each sink on its own. *)
Lemma fanout_map (want : S -> bool) (ae : Event) (i : nat) (ss : list S) :
  fst (pipeline.fanout want ae i ss)
  = map (fun s => if want s then sinks.Push ae s else s) ss.
Proof.
  revert i. induction ss as [| s ss IH]; intros i; [reflexivity |].
  cbn [pipeline.fanout map]. specialize (IH (Datatypes.S i)).
  destruct (pipeline.fanout want ae (Datatypes.S i) ss) as [ss' calls].
  cbn [fst] in IH. subst ss'. destruct (want s); reflexivity.
Qed.

Lemma acctUpdateWorker_drains_aux (cp : nat) (cl : bool) (b : list Event) :
  forall (p : pipeline.Pipeline (S := S)) (fuel : nat),
    pipeline.acctUpdateChan p = Some (mkChan b cp cl) ->
    (length b < fuel)%nat ->
    exists p',
      pipeline.acctUpdateWorker EventLength fuel p
        = (if cl then pipeline.Exited else pipeline.Parked, p') /\
      pipeline.acctUpdateChan p' = Some (mkChan [] cp cl) /\
      pipeline.acctSinks p' = map (deliver sinks.WantUpdate b) (pipeline.acctSinks p) /\
      pipeline.acctDestroyChan p' = pipeline.acctDestroyChan p /\
      pipeline.acctProbe p' = pipeline.acctProbe p /\
      pipeline.EventsUpdate (pipeline.stats p')
        = Nat.iter (length b) (fun x => add64 x 1)
            (pipeline.EventsUpdate (pipeline.stats p)) /\
      pipeline.EventsDestroy (pipeline.stats p')
        = pipeline.EventsDestroy (pipeline.stats p).
Proof.
  induction b as [| ae rest IH]; intros p fuel Hch Hfuel;
    (destruct fuel as [| fuel]; [cbn in Hfuel; lia |]);
    unfold pipeline.acctUpdateWorker; cbn [pipeline.worker_loop];
    unfold pipeline.acctUpdateWorker_iter; rewrite Hch; cbn [recv buf closed cap].
  - exists p. destruct cl; cbn [mbind outcome_bind];
      (split; [reflexivity |]); (split; [exact Hch |]);
      (split; [symmetry; apply map_id |]); auto.
  - cbn [mbind outcome_bind].
    pose proof (fanout_map sinks.WantUpdate ae 0 (pipeline.acctSinks p)) as Hmap.
    cbn [pipeline.acctSinks pipeline.set_stats pipeline.set_acctUpdateChan] in *.
    destruct (pipeline.fanout sinks.WantUpdate ae 0 (pipeline.acctSinks p))
      as [ss calls].
    cbn [fst] in Hmap. subst ss.
    match goal with
    | |- exists p', pipeline.worker_loop _ _ ?q = _ /\ _ =>
        destruct (IH q fuel eq_refl ltac:(cbn in Hfuel; lia))
          as (p' & Hrun & Hc & Hs & Ho & Hp & Hk & Hoth)
    end.
    exists p'. split; [exact Hrun |]. split; [exact Hc |].
    split; [| split; [exact Ho | split; [exact Hp | split]]].
    + rewrite Hs. cbn. rewrite map_map. reflexivity.
    + rewrite Hk. cbn [length]. rewrite Nat.iter_succ_r. reflexivity.
    + rewrite Hoth. reflexivity.
Qed.

Lemma acctDestroyWorker_drains_aux (cp : nat) (cl : bool) (b : list Event) :
  forall (p : pipeline.Pipeline (S := S)) (fuel : nat),
    pipeline.acctDestroyChan p = Some (mkChan b cp cl) ->
    (length b < fuel)%nat ->
    exists p',
      pipeline.acctDestroyWorker EventLength fuel p
        = (if cl then pipeline.Exited else pipeline.Parked, p') /\
      pipeline.acctDestroyChan p' = Some (mkChan [] cp cl) /\
      pipeline.acctSinks p' = map (deliver sinks.WantDestroy b) (pipeline.acctSinks p) /\
      pipeline.acctUpdateChan p' = pipeline.acctUpdateChan p /\
      pipeline.acctProbe p' = pipeline.acctProbe p /\
      pipeline.EventsDestroy (pipeline.stats p')
        = Nat.iter (length b) (fun x => add64 x 1)
            (pipeline.EventsDestroy (pipeline.stats p)) /\
      pipeline.EventsUpdate (pipeline.stats p')
        = pipeline.EventsUpdate (pipeline.stats p).
Proof.
  induction b as [| ae rest IH]; intros p fuel Hch Hfuel;
    (destruct fuel as [| fuel]; [cbn in Hfuel; lia |]);
    unfold pipeline.acctDestroyWorker; cbn [pipeline.worker_loop];
    unfold pipeline.acctDestroyWorker_iter; rewrite Hch; cbn [recv buf closed cap].
  - exists p. destruct cl; cbn [mbind outcome_bind];
      (split; [reflexivity |]); (split; [exact Hch |]);
      (split; [symmetry; apply map_id |]); auto.
  - cbn [mbind outcome_bind].
    pose proof (fanout_map sinks.WantDestroy ae 0 (pipeline.acctSinks p)) as Hmap.
    cbn [pipeline.acctSinks pipeline.set_stats pipeline.set_acctDestroyChan] in *.
    destruct (pipeline.fanout sinks.WantDestroy ae 0 (pipeline.acctSinks p))
      as [ss calls].
    cbn [fst] in Hmap. subst ss.
    match goal with
    | |- exists p', pipeline.worker_loop _ _ ?q = _ /\ _ =>
        destruct (IH q fuel eq_refl ltac:(cbn in Hfuel; lia))
          as (p' & Hrun & Hc & Hs & Ho & Hp & Hk & Hoth)
    end.
    exists p'. split; [exact Hrun |]. split; [exact Hc |].
    split; [| split; [exact Ho | split; [exact Hp | split]]].
    + rewrite Hs. cbn. rewrite map_map. reflexivity.
    + rewrite Hk. cbn [length]. rewrite Nat.iter_succ_r. reflexivity.
    + rewrite Hoth. reflexivity.
Qed.

(** X13. A worker drains its channel in order.  On a pipeline whose
    sinks have distinct names, so that no sink is registered twice and
    the entries of the sink list are distinct sinks, and given more
    iterations than events waiting, the update worker takes every waiting event off
    the update channel; it then leaves its loop if the channel is closed
    and parks on it otherwise.  Each sink has been offered the events in
    channel order, independently of the other sinks; the update counter
    went up once per event; the destroy channel, the destroy counter and
    the probe are untouched.  The destroy worker does the same on its
    side. *)
Theorem workers_drain (p : pipeline.Pipeline (S := S)) (ch : chan Event) (fuel : nat) :
  NoDup (sinks.Name <$> pipeline.acctSinks p) ->
  (length (buf ch) < fuel)%nat ->
  (pipeline.acctUpdateChan p = Some ch ->
   exists p',
     pipeline.acctUpdateWorker EventLength fuel p
       = (if closed ch then pipeline.Exited else pipeline.Parked, p') /\
     pipeline.acctUpdateChan p' = Some (mkChan [] (cap ch) (closed ch)) /\
     pipeline.acctSinks p'
       = map (deliver sinks.WantUpdate (buf ch)) (pipeline.acctSinks p) /\
     pipeline.acctDestroyChan p' = pipeline.acctDestroyChan p /\
     pipeline.acctProbe p' = pipeline.acctProbe p /\
     pipeline.EventsUpdate (pipeline.stats p')
       = Nat.iter (length (buf ch)) (fun x => add64 x 1)
           (pipeline.EventsUpdate (pipeline.stats p)) /\
     pipeline.EventsDestroy (pipeline.stats p')
       = pipeline.EventsDestroy (pipeline.stats p)) /\
  (pipeline.acctDestroyChan p = Some ch ->
   exists p',
     pipeline.acctDestroyWorker EventLength fuel p
       = (if closed ch then pipeline.Exited else pipeline.Parked, p') /\
     pipeline.acctDestroyChan p' = Some (mkChan [] (cap ch) (closed ch)) /\
     pipeline.acctSinks p'
       = map (deliver sinks.WantDestroy (buf ch)) (pipeline.acctSinks p) /\
     pipeline.acctUpdateChan p' = pipeline.acctUpdateChan p /\
     pipeline.acctProbe p' = pipeline.acctProbe p /\
     pipeline.EventsDestroy (pipeline.stats p')
       = Nat.iter (length (buf ch)) (fun x => add64 x 1)
           (pipeline.EventsDestroy (pipeline.stats p)) /\
     pipeline.EventsUpdate (pipeline.stats p')
       = pipeline.EventsUpdate (pipeline.stats p)).
Proof.
  intros _ Hfuel. destruct ch as [b cp cl]. cbn [buf cap closed] in *. split; intros Hch.
  - exact (acctUpdateWorker_drains_aux cp cl b p fuel Hch Hfuel).
  - exact (acctDestroyWorker_drains_aux cp cl b p fuel Hch Hfuel).
Qed.

(** A worker started on a pipeline that was never initialized parks on
    its nil channel at once and stays there. *)
Lemma worker_parks_before_Init (fuel : nat) :
  pipeline.acctUpdateWorker EventLength (Datatypes.S fuel) (pipeline.New (S := S))
    = (pipeline.Parked, pipeline.New) /\
  pipeline.acctDestroyWorker EventLength (Datatypes.S fuel) (pipeline.New (S := S))
    = (pipeline.Parked, pipeline.New).
Proof. split; reflexivity. Qed.

End WorkerDrain.

Lemma workers_drain_witness :
  exists p',
    pipeline.acctDestroyWorker 92 2 pipeline_S3 = (pipeline.Parked, p') /\
    c_received <$> pipeline.acctSinks p' = [[]; [event_at 1 7 10]] /\
    pipeline.acctUpdateChan p' = pipeline.acctUpdateChan pipeline_S3.
Proof.
  destruct (workers_drain 92 pipeline_S3 (mkChan [event_at 1 7 10] 1024 false) 2)
    as [_ Hd]; [apply (bool_decide_unpack _); vm_compute; exact I | cbn; lia |].
  destruct (Hd eq_refl) as (p' & Hrun & _ & Hs & Hu & _).
  exists p'. split; [exact Hrun | split; [| exact Hu]].
  rewrite Hs. reflexivity.
Defined.

(** ** The pipeline workers: the per-kind counters *)

Section KindStats.

Variable EventLength : Z.

Lemma kind_conservation_congr s1 s2 :
  counters s1 = counters s2 ->
  kind_conservation EventLength s1 -> kind_conservation EventLength s2.
Proof.
  destruct s1, s2. unfold counters, kind_conservation. cbn.
  intros [= -> -> -> -> -> ->]. exact id.
Qed.

Lemma update_block_kind qlen s :
  kind_conservation EventLength s ->
  kind_conservation EventLength
    (pipeline.exec_ops EventLength (pipeline.update_stat_ops qlen) s).
Proof.
  destruct s as [et bt eu bu ed bd qu qd].
  unfold kind_conservation. cbn. unfold add64, mul64. intros (Hu & Hd & Ht).
  split; [| split; [exact Hd |]].
  - rewrite Hu, Zplus_mod_idemp_l, Zmult_mod_idemp_l. f_equal. lia.
  - rewrite Ht, !Zplus_mod_idemp_l. f_equal. lia.
Qed.

Lemma destroy_block_kind qlen s :
  kind_conservation EventLength s ->
  kind_conservation EventLength
    (pipeline.exec_ops EventLength (pipeline.destroy_stat_ops qlen) s).
Proof.
  destruct s as [et bt eu bu ed bd qu qd].
  unfold kind_conservation. cbn. unfold add64, mul64. intros (Hu & Hd & Ht).
  split; [exact Hu | split].
  - rewrite Hd, Zplus_mod_idemp_l, Zmult_mod_idemp_l. f_equal. lia.
  - rewrite Ht, Zplus_mod_idemp_l, Zplus_mod_idemp_r. f_equal. lia.
Qed.

Lemma blocks_keep (P : pipeline.Stats -> Prop) (block : Z -> list pipeline.stat_op)
  (qs : list Z) (s : pipeline.Stats) :
  (forall q s, P s -> P (pipeline.exec_ops EventLength (block q) s)) ->
  P s -> P (pipeline.exec_ops EventLength (concat (map block qs)) s).
Proof.
  intros Hb. revert s. induction qs as [| q qs IH]; intros s Hs; [exact Hs |].
  cbn. rewrite exec_ops_app. apply IH, Hb, Hs.
Qed.

(** X14. The per-kind counters stay consistent under every schedule of
    the workers: the update and destroy byte counters are the update and
    destroy event counters times [EventLength], and the byte total is the
    sum of the two byte counters (in [uint64] arithmetic), after any
    interleaving of complete iterations of both workers, if it was so
    before. *)
Theorem kind_conservation_workers (s : pipeline.Stats) (us ds : list Z)
  (ops : list pipeline.stat_op) :
  kind_conservation EventLength s ->
  pipeline.interleave (concat (map pipeline.update_stat_ops us))
    (concat (map pipeline.destroy_stat_ops ds)) ops ->
  kind_conservation EventLength (pipeline.exec_ops EventLength ops s).
Proof.
  intros Hs Hi. apply interleave_perm in Hi.
  eapply kind_conservation_congr.
  { symmetry. apply exec_ops_perm. exact Hi. }
  rewrite exec_ops_app.
  apply (blocks_keep (kind_conservation EventLength)); [apply destroy_block_kind |].
  apply (blocks_keep (kind_conservation EventLength)); [apply update_block_kind | exact Hs].
Qed.

End KindStats.

Lemma kind_conservation_workers_witness :
  kind_conservation 92
    (pipeline.exec_ops 92
       [pipeline.AddEventsTotal; pipeline.AddEventsTotal;
        pipeline.AddAcctBytesTotal; pipeline.AddEventsDestroy;
        pipeline.AddAcctBytesTotal; pipeline.AddEventsUpdate;
        pipeline.AddAcctBytesUpdate; pipeline.AddAcctBytesDestroy;
        pipeline.StoreAcctDestroyQueueLen 0; pipeline.StoreAcctUpdateQueueLen 3]
       pipeline.zeroStats).
Proof.
  apply (kind_conservation_workers 92 pipeline.zeroStats [3] [0]).
  - repeat split.
  - cbn.
    apply pipeline.interleave_l, pipeline.interleave_r, pipeline.interleave_r,
      pipeline.interleave_r, pipeline.interleave_l, pipeline.interleave_l,
      pipeline.interleave_l, pipeline.interleave_r, pipeline.interleave_r,
      pipeline.interleave_l, pipeline.interleave_nil.
Defined.

(** ** The pipeline: registering several sinks *)

Section RegisterSinks.

Context {S : Type} `{!sinks.Sink S}.

(** X15. Registering a list of sinks one after the other appends, in
    order, exactly those that are initialized, each as often as it occurs
    ([RegisterSink] has no check for duplicates); it calls [warnSysctl]
    once per registered sink that wants destroy events and touches nothing
    else of the pipeline. *)
Theorem RegisterSinks_appends_initialized (p : pipeline.Pipeline (S := S)) (ss : list S) :
  pipeline.GetSinks (RegisterSinks p ss)
    = pipeline.GetSinks p ++ List.filter sinks.IsInit ss /\
  pipeline.effects (RegisterSinks p ss)
    = pipeline.effects p
      ++ map (fun _ => pipeline.WarnSysctl)
           (List.filter (fun s => sinks.IsInit s && sinks.WantDestroy s) ss) /\
  pipeline.stats (RegisterSinks p ss) = pipeline.stats p /\
  pipeline.acctProbe (RegisterSinks p ss) = pipeline.acctProbe p /\
  pipeline.start (RegisterSinks p ss) = pipeline.start p.
Proof.
  unfold RegisterSinks, pipeline.GetSinks. revert p.
  induction ss as [| s ss IH]; intros p.
  - cbn. rewrite !app_nil_r. auto.
  - cbn [fold_left List.filter].
    destruct (IH (snd (pipeline.RegisterSink p s))) as (Hs & He & Hst & Hp & Hg).
    rewrite Hs, He, Hst, Hp, Hg. unfold pipeline.RegisterSink.
    destruct (sinks.IsInit s); cbn [negb andb snd].
    + destruct (sinks.WantDestroy s); cbn; rewrite <- !app_assoc; auto.
    + auto.
Qed.

End RegisterSinks.

(** Sinks A and B registered, an uninitialized sink in between skipped. *)
Example RegisterSinks_A_B :
  pipeline.GetSinks
    (RegisterSinks pipeline.New [sink_A; mkCollector "C" false true true []; sink_B])
  = [sink_A; sink_B].
Proof. reflexivity. Qed.

(** ** The InfluxDB sink: initialization *)

Section InfluxInit.

Variable NewUDPClient : string -> N -> error + influxdb.Client.
Variable Estimate : Z.

Implicit Types (s : influxdb.InfluxAcctSink) (sc : influxdb.AcctSinkConfig).

(** X16. On a sink not yet initialized, [IsInit] after [Init] tells
    whether [Init] succeeded; a failed [Init] leaves the sink exactly as
    it was (no channel, no batch, no workers); an empty name fails with
    [errSinkName] before the client is made, and a client error is
    returned as it is. *)
Theorem Influx_Init_outcome s sc :
  influxdb.init s = false ->
  (fst (influxdb.Init NewUDPClient Estimate s sc) = None <->
   influxdb.IsInit (snd (influxdb.Init NewUDPClient Estimate s sc)) = true) /\
  (fst (influxdb.Init NewUDPClient Estimate s sc) <> None ->
   snd (influxdb.Init NewUDPClient Estimate s sc) = s) /\
  (influxdb.Name sc = EmptyString ->
   fst (influxdb.Init NewUDPClient Estimate s sc) = Some errSinkName) /\
  (forall err, influxdb.Name sc <> EmptyString ->
     NewUDPClient (influxdb.Addr sc) (influxdb.UDPPayloadSize sc) = inl err ->
     fst (influxdb.Init NewUDPClient Estimate s sc) = Some err) /\
  (forall c, influxdb.Name sc <> EmptyString ->
     NewUDPClient (influxdb.Addr sc) (influxdb.UDPPayloadSize sc) = inr c ->
     fst (influxdb.Init NewUDPClient Estimate s sc) = None /\
     influxdb.name (snd (influxdb.Init NewUDPClient Estimate s sc)) = influxdb.Name sc /\
     influxdb.client (snd (influxdb.Init NewUDPClient Estimate s sc)) = Some c /\
     influxdb.workers (snd (influxdb.Init NewUDPClient Estimate s sc))
       = influxdb.workers s ++ [influxdb.sendWorker; influxdb.tickWorker]).
Proof.
  intros Hinit. unfold influxdb.Init, influxdb.IsInit.
  destruct (String.eqb_spec (influxdb.Name sc) EmptyString) as [Hn | Hn].
  - cbn. rewrite Hinit. repeat split; try discriminate; try contradiction; auto.
  - destruct (NewUDPClient (influxdb.Addr sc) (influxdb.UDPPayloadSize sc)) as [e | c].
    + cbn. rewrite Hinit.
      repeat split; try discriminate; try contradiction; auto; congruence.
    + cbn.
      split; [split; reflexivity |].
      split; [intros Hc; contradiction |].
      split; [intros Hc; contradiction |].
      split; [discriminate |].
      intros c' _ [= <-].
      destruct (influxdb.BatchWatermark sc =? 0)%N; auto.
Qed.

End InfluxInit.

Lemma Influx_Init_outcome_witness :
  fst (influxdb.Init NewUDPClient_ok 0 influxdb.New
         (influxdb.mkConfig EmptyString "localhost:8089" 0 512 false))
    = Some errSinkName /\
  snd (influxdb.Init NewUDPClient_ok 0 influxdb.New
         (influxdb.mkConfig EmptyString "localhost:8089" 0 512 false))
    = influxdb.New /\
  influxdb.IsInit (sink_of config_default) = true.
Proof.
  destruct (Influx_Init_outcome NewUDPClient_ok 0 influxdb.New
              (influxdb.mkConfig EmptyString "localhost:8089" 0 512 false) eq_refl)
    as (_ & Hsame & Hname & _).
  destruct (Influx_Init_outcome NewUDPClient_ok 0 influxdb.New config_default eq_refl)
    as (Hiff & _).
  split; [apply Hname; reflexivity |].
  split; [apply Hsame; rewrite (Hname eq_refl); discriminate |].
  apply Hiff. reflexivity.
Defined.

(** ** The InfluxDB sink: no point is lost or reordered *)

Section InfluxPoints.

Variable NewPoint :
  string -> gmap string Z -> gmap string Z -> Z -> error + influxdb.Point.

Implicit Types (s : influxdb.InfluxAcctSink) (e : Event).

Lemma new_point_ext s s' e :
  influxdb.config s' = influxdb.config s ->
  influxdb.bootTime s' = influxdb.bootTime s ->
  influxdb.new_point NewPoint s' e = influxdb.new_point NewPoint s e.
Proof.
  intros Hc Hb.
  unfold influxdb.new_point, influxdb.point_tags, influxdb.point_time.
  rewrite Hc, Hb. reflexivity.
Qed.

(** One [Push] that returns: the point the client built is added behind
    all points held, and a batch handed over holds exactly watermark
    points. *)
Lemma Push_step s e s' :
  sink_inv s -> influxdb.Push NewPoint s e = Ret s' ->
  exists pt,
    influxdb.new_point NewPoint s e = inr pt /\
    sink_inv s' /\
    influxdb.config s' = influxdb.config s /\
    influxdb.bootTime s' = influxdb.bootTime s /\
    pending s' = pending s ++ [pt] /\
    (queued s' = queued s \/
     exists b', queued s' = queued s ++ [b'] /\
                N.of_nat (length b') = influxdb.BatchWatermark (influxdb.config s)).
Proof.
  intros Hinv Hp.
  destruct (Push_returned_point NewPoint s e s' Hp) as [pt Hpt].
  exists pt. split; [exact Hpt |].
  pose proof Hinv as (Hinit & (b & Hb & Hlt) & (q & Hq & Hopen & Hcap & Hroom)).
  destruct (Push_cases NewPoint s e pt b q Hinv Hpt Hb Hq) as (Hbelow & Hreach & Hfull).
  assert (Hlen : N.of_nat (length (b ++ [pt])) = (N.of_nat (length b) + 1)%N).
  { rewrite length_app. cbn. lia. }
  assert (Hboot : influxdb.bootTime s' = influxdb.bootTime s).
  { unfold influxdb.Push in Hp. rewrite Hpt, Hb in Hp.
    destruct (_ <=? _)%N in Hp.
    - destruct (send _ _) as [ch | |] in Hp; cbn in Hp; [| discriminate ..].
      injection Hp as <-. reflexivity.
    - injection Hp as <-. reflexivity. }
  unfold pending, queued, current.
  destruct (N.lt_ge_cases (N.of_nat (length (b ++ [pt])))
              (influxdb.BatchWatermark (influxdb.config s))) as [H | H].
  - destruct (Hbelow H) as (s'' & Hr & Hb' & Hq' & Hc & Hinv').
    rewrite Hp in Hr. injection Hr as <-.
    split; [exact Hinv' | split; [exact Hc | split; [exact Hboot |]]].
    rewrite Hb', Hq', Hb, Hq. split; [apply app_assoc | left; reflexivity].
  - destruct (Nat.lt_ge_cases (length (buf q)) 64) as [Hfree | Hf].
    + destruct (Hreach H Hfree) as (s'' & Hr & Hb' & Hq' & Hc & Hinv').
      rewrite Hp in Hr. injection Hr as <-.
      split; [exact Hinv' | split; [exact Hc | split; [exact Hboot |]]].
      rewrite Hb', Hq', Hb, Hq. cbn [buf]. split.
      * rewrite concat_app. cbn. rewrite !app_nil_r, <- !app_assoc. reflexivity.
      * right. eexists. split; [reflexivity |]. lia.
    + rewrite (Hfull H Hf) in Hp. discriminate.
Qed.

(** X17. Pushes lose and reorder nothing: when a sequence of [Push] calls
    on an initialized sink has returned, the client built a point for
    every event, and the points held by the sink (the batches on the send
    channel, oldest first, then the current batch) are the points held
    before followed by those points, one per event, in the order pushed;
    every batch handed over meanwhile holds exactly watermark points, and
    the current batch is below the watermark. *)
Theorem Push_all_keeps_points s (es : list Event) s' :
  sink_inv s -> Push_all NewPoint s es = Ret s' ->
  exists pts,
    Forall2 (fun e pt => influxdb.new_point NewPoint s e = inr pt) es pts /\
    pending s' = pending s ++ pts /\
    (exists new, queued s' = queued s ++ new /\
                 Forall (fun b : influxdb.Batch =>
                           N.of_nat (length b)
                           = influxdb.BatchWatermark (influxdb.config s))
                        new) /\
    (N.of_nat (length (current s')) < influxdb.BatchWatermark (influxdb.config s))%N /\
    sink_inv s'.
Proof.
  revert s. induction es as [| e es IH]; intros s Hinv Hrun.
  - cbn in Hrun. injection Hrun as <-. exists []. rewrite app_nil_r.
    split; [constructor | split; [reflexivity |]].
    split; [exists []; rewrite app_nil_r; auto |].
    split; [| exact Hinv].
    destruct Hinv as (_ & (b & Hb & Hlt) & _). unfold current. rewrite Hb. exact Hlt.
  - cbn [Push_all] in Hrun.
    destruct (influxdb.Push NewPoint s e) as [s1 | |] eqn:Hp; cbn in Hrun;
      [| discriminate ..].
    destruct (Push_step s e s1 Hinv Hp) as (pt & Hpt & Hinv1 & Hc & Hb & Hpend & Hq).
    destruct (IH s1 Hinv1 Hrun)
      as (pts & Hpts & Hpend' & (new & Hq' & Hnew) & Hcur & Hinv').
    rewrite Hc in *.
    exists (pt :: pts).
    split; [| split; [| split; [| split; [exact Hcur | exact Hinv']]]].
    + constructor; [exact Hpt |].
      eapply Forall2_impl; [exact Hpts |]. intros e' pt' He'.
      rewrite <- He'. symmetry. apply new_point_ext; assumption.
    + rewrite Hpend', Hpend, <- app_assoc. reflexivity.
    + destruct Hq as [Hq | (b' & Hq & Hb')].
      * exists new. rewrite Hq', Hq. auto.
      * exists (b' :: new). rewrite Hq', Hq, <- app_assoc. split; [reflexivity |].
        constructor; assumption.
Qed.

(** X18. While the send channel has room, pushes return exactly when the
    client accepts the points: on an initialized sink with as many free
    places on the channel as there are events, the sequence of [Push]
    calls returns if the client builds a point for every event, and
    panics if it rejects the point of one of them. *)
Theorem Push_all_returns s (es : list Event) :
  sink_inv s -> (length (queued s) + length es <= 64)%nat ->
  (Forall (fun e => exists pt, influxdb.new_point NewPoint s e = inr pt) es ->
   exists s', Push_all NewPoint s es = Ret s') /\
  (Exists (fun e => exists err, influxdb.new_point NewPoint s e = inl err) es ->
   Push_all NewPoint s es = Panic).
Proof.
  revert s. induction es as [| e es IH]; intros s Hinv Hroom.
  { split; [eexists; reflexivity | intros H; inversion H]. }
  cbn [length] in Hroom.
  pose proof Hinv as (Hinit & (b & Hb & Hlt) & (q & Hq & Hopen & Hcap & _)).
  assert (Hql : queued s = buf q) by (unfold queued; rewrite Hq; reflexivity).
  destruct (influxdb.new_point NewPoint s e) as [err | pt] eqn:Hpt.
  - split.
    + intros Hall. apply Forall_cons in Hall as [[pt Hpt'] _]. congruence.
    + intros _. cbn [Push_all]. rewrite (Push_rejected NewPoint s e err Hpt). reflexivity.
  - destruct (Push_cases NewPoint s e pt b q Hinv Hpt Hb Hq) as (Hbelow & Hreach & _).
    assert (Hp : exists s1, influxdb.Push NewPoint s e = Ret s1).
    { destruct (N.lt_ge_cases (N.of_nat (length (b ++ [pt])))
                  (influxdb.BatchWatermark (influxdb.config s))) as [H | H].
      - destruct (Hbelow H) as (s1 & Hr & _). eauto.
      - destruct (Hreach H) as (s1 & Hr & _); [rewrite <- Hql; lia | eauto]. }
    destruct Hp as [s1 Hp].
    destruct (Push_step s e s1 Hinv Hp) as (pt' & _ & Hinv1 & Hc & Hbt & _ & Hq1).
    destruct (IH s1 Hinv1) as [IHret IHpanic].
    { destruct Hq1 as [-> | (b' & -> & _)]; [lia |]. rewrite length_app. cbn. lia. }
    cbn [Push_all]. rewrite Hp. cbn [mbind outcome_bind]. split.
    + intros Hall. apply Forall_cons in Hall as [_ Hall]. apply IHret.
      eapply Forall_impl; [exact Hall |]. intros e' [pt'' He'].
      exists pt''. rewrite <- He'. apply new_point_ext; assumption.
    + intros Hex. apply Exists_cons in Hex as [[err Herr] | Hex]; [congruence |].
      apply IHpanic. eapply Exists_impl; [exact Hex |]. intros e' [err He'].
      exists err. rewrite <- He'. apply new_point_ext; assumption.
Qed.

End InfluxPoints.

Lemma sink_wm3_inv : sink_inv (sink_of config_wm3).
Proof.
  split; [reflexivity | split].
  - exists []. split; [reflexivity |]. cbn. lia.
  - exists (make_chan 64). cbn. unfold influxdb.sendChanCap. repeat split; lia.
Qed.

Lemma Push_all_returns_witness :
  (exists s',
     Push_all NewPoint_client (sink_of config_wm3)
       (map (event_at 1 7) [0; 1; 2; 3; 4; 5; 6]) = Ret s') /\
  Push_all NewPoint_client (sink_of config_wm3) [event_at 1 7 0; event_late] = Panic.
Proof.
  destruct (Push_all_returns NewPoint_client (sink_of config_wm3)
              (map (event_at 1 7) [0; 1; 2; 3; 4; 5; 6]) sink_wm3_inv)
    as [Hret _]; [cbn; lia |].
  destruct (Push_all_returns NewPoint_client (sink_of config_wm3)
              [event_at 1 7 0; event_late] sink_wm3_inv)
    as [_ Hpanic]; [cbn; lia |].
  split.
  - apply Hret. repeat constructor; eexists; vm_compute; reflexivity.
  - apply Hpanic. right. left. eexists. vm_compute. reflexivity.
Defined.

Lemma Push_all_keeps_points_witness :
  match Push_all NewPoint_client (sink_of config_wm3)
          (map (event_at 1 7) [0; 1; 2; 3]) with
  | Ret s' =>
      exists pts,
        Forall2
          (fun e pt =>
             influxdb.new_point NewPoint_client (sink_of config_wm3) e = inr pt)
          (map (event_at 1 7) [0; 1; 2; 3]) pts /\
        pending s' = pts /\
        (N.of_nat (length (current s')) < 3)%N
  | _ => False
  end.
Proof.
  destruct (Push_all NewPoint_client (sink_of config_wm3)
              (map (event_at 1 7) [0; 1; 2; 3]))
    as [s' | |] eqn:Hrun; [| vm_compute in Hrun; discriminate ..].
  destruct (Push_all_keeps_points NewPoint_client (sink_of config_wm3) _ s'
              sink_wm3_inv Hrun) as (pts & Hpts & Hpend & _ & Hcur & _).
  exists pts. split; [exact Hpts | split; [exact Hpend | exact Hcur]].
Defined.

(** ** The InfluxDB sink: the point built from an event *)

Lemma int64_cases (x : Z) :
  0 <= x < 2 ^ 64 ->
  influxdb.int64 x = if x <? 2 ^ 63 then x else x - 2 ^ 64.
Proof.
  intros Hx. unfold influxdb.int64.
  destruct (Z.ltb_spec x (2 ^ 63)) as [Hlt | Hge].
  - rewrite Z.mod_small by lia. lia.
  - replace (x + 2 ^ 63) with (x - 2 ^ 63 + 1 * 2 ^ 64) by lia.
    rewrite Z_mod_plus_full, Z.mod_small by lia. lia.
Qed.

(** X19. What [Push] hands to [influx.NewPoint], for an event whose
    counters and timestamp are [uint64] values.  The four counters go as
    signed 64-bit numbers: a counter below 2^63 as it is, a counter from
    2^63 on as the negative number 2^64 less.  The time is the boot time
    plus the timestamp converted the same way: a timestamp from 2^63 on
    puts the point 2^64 nanoseconds earlier.  The source port tag is
    there exactly when the configuration enables it. *)
Theorem point_of_event
  (NewPoint : string -> gmap string Z -> gmap string Z -> Z -> error + influxdb.Point)
  (s : influxdb.InfluxAcctSink) (e : Event) :
  0 <= BytesOrig e < 2 ^ 64 -> 0 <= BytesRet e < 2 ^ 64 ->
  0 <= PacketsOrig e < 2 ^ 64 -> 0 <= PacketsRet e < 2 ^ 64 ->
  0 <= Timestamp e < 2 ^ 64 ->
  influxdb.new_point NewPoint s e
    = NewPoint "ct_acct" (influxdb.point_tags s e) (influxdb.point_fields e)
        (influxdb.point_time s e) /\
  influxdb.point_fields e !! "bytes_orig"
    = Some (if BytesOrig e <? 2 ^ 63 then BytesOrig e else BytesOrig e - 2 ^ 64) /\
  influxdb.point_fields e !! "bytes_ret"
    = Some (if BytesRet e <? 2 ^ 63 then BytesRet e else BytesRet e - 2 ^ 64) /\
  influxdb.point_fields e !! "packets_orig"
    = Some (if PacketsOrig e <? 2 ^ 63 then PacketsOrig e
            else PacketsOrig e - 2 ^ 64) /\
  influxdb.point_fields e !! "packets_ret"
    = Some (if PacketsRet e <? 2 ^ 63 then PacketsRet e else PacketsRet e - 2 ^ 64) /\
  influxdb.point_time s e
    = influxdb.bootTime s
      + (if Timestamp e <? 2 ^ 63 then Timestamp e else Timestamp e - 2 ^ 64) /\
  influxdb.point_tags s e !! "src_port"
    = (if influxdb.EnableSrcPort (influxdb.config s) then Some (SrcPort e) else None) /\
  influxdb.point_tags s e !! "dst_port" = Some (DstPort e).
Proof.
  intros Hbo Hbr Hpo Hpr Hts.
  split; [reflexivity |].
  unfold influxdb.point_fields, influxdb.point_time, influxdb.point_tags.
  rewrite <- (int64_cases _ Hbo), <- (int64_cases _ Hbr),
    <- (int64_cases _ Hpo), <- (int64_cases _ Hpr), <- (int64_cases _ Hts).
  repeat split;
    try destruct (influxdb.EnableSrcPort (influxdb.config s));
    repeat (rewrite lookup_insert_ne by discriminate);
    rewrite ?lookup_insert_eq, ?lookup_empty; reflexivity.
Qed.

Lemma point_of_event_witness :
  influxdb.point_fields (mkEvent (2 ^ 63) 7 0 0 0 0 443 0 (2 ^ 63) 0 10 1 6)
    !! "bytes_orig" = Some (- 2 ^ 63) /\
  influxdb.point_fields (mkEvent (2 ^ 63) 7 0 0 0 0 443 0 (2 ^ 63) 0 10 1 6)
    !! "bytes_ret" = Some 10 /\
  influxdb.point_time (sink_of config_default)
    (mkEvent (2 ^ 63) 7 0 0 0 0 443 0 (2 ^ 63) 0 10 1 6) = - 2 ^ 63 /\
  influxdb.point_tags (sink_of config_default)
    (mkEvent (2 ^ 63) 7 0 0 0 0 443 0 (2 ^ 63) 0 10 1 6) !! "src_port" = None.
Proof.
  destruct (point_of_event NewPoint_client (sink_of config_default)
              (mkEvent (2 ^ 63) 7 0 0 0 0 443 0 (2 ^ 63) 0 10 1 6))
    as (_ & Hbo & Hbr & _ & _ & Ht & Hsp & _);
    try (cbn; lia).
  split; [exact Hbo | split; [exact Hbr | split; [exact Ht | exact Hsp]]].
Defined.

Lemma stat_conservation_exact_witness :
  pipeline.EventsTotal
    (pipeline.exec_ops 92
       [pipeline.AddEventsTotal; pipeline.AddEventsTotal;
        pipeline.AddAcctBytesTotal; pipeline.AddEventsDestroy;
        pipeline.AddAcctBytesTotal; pipeline.AddEventsUpdate;
        pipeline.AddAcctBytesUpdate; pipeline.AddAcctBytesDestroy;
        pipeline.StoreAcctDestroyQueueLen 0; pipeline.StoreAcctUpdateQueueLen 3]
       pipeline.zeroStats) = 1 + 1.
Proof.
  destruct (stat_conservation_exact 92 [3] [0]
              [pipeline.AddEventsTotal; pipeline.AddEventsTotal;
               pipeline.AddAcctBytesTotal; pipeline.AddEventsDestroy;
               pipeline.AddAcctBytesTotal; pipeline.AddEventsUpdate;
               pipeline.AddAcctBytesUpdate; pipeline.AddAcctBytesDestroy;
               pipeline.StoreAcctDestroyQueueLen 0; pipeline.StoreAcctUpdateQueueLen 3])
    as (Hu & Hd & Ht & _).
  - lia.
  - unfold u64. cbn. lia.
  - cbn.
    apply pipeline.interleave_l, pipeline.interleave_r, pipeline.interleave_r,
      pipeline.interleave_r, pipeline.interleave_l, pipeline.interleave_l,
      pipeline.interleave_l, pipeline.interleave_r, pipeline.interleave_r,
      pipeline.interleave_l, pipeline.interleave_nil.
  - rewrite Ht, Hu, Hd. reflexivity.
Defined.
